(** * ai-video-maker: the asset pipeline of [video_maker_lib.py] and [app.py]

    A shallow embedding of the script-to-video pipeline: the scene-breakdown
    handler, the four asset fetchers, the dispatch loop and the video
    assembler.  The remote services (speech, image, video, stock footage)
    and the media library are outside the repository; the former appear as
    an oracle of replies, the latter as a symbolic description of the clips
    it is asked to build, with an oracle of the loads that raise. *)

From stdpp Require Import gmap strings list fin_maps pretty sorting.
From Stdlib Require Import Floats.

Set Warnings "-register-all".
Local Open Scope Z_scope.

(** ** Python values

    What [json.loads] returns, and what a pandas record can hold in a
    cell.  [JNull] is Python's [None]. *)

Inductive json :=
| JNull
| JBool (b : bool)
| JInt (n : Z)
| JFloat (f : float)
| JStr (s : string)
| JList (l : list json)
| JDict (d : gmap string json).

Definition bytes := list Byte.byte.

(** Exceptions, as far as the pipeline tells them apart: all of them are
    caught by [except Exception] and only printed. *)
Inductive Exn :=
| KeyError (key : string)
| IndexError
| TypeError
| JSONDecodeError
| InvalidURL
| HTTPError (status : Z)
| RequestException (msg : string)
| ApiError (msg : string)
| ValueError
| OSError (msg : string).

(** [bool(v)]: the truth value Python's [if v] and [not v] test. *)
Definition py_truthy (v : json) : bool :=
  match v with
  | JNull => false
  | JBool b => b
  | JInt n => negb (n =? 0)
  | JFloat f => negb (PrimFloat.eqb f 0%float)
  | JStr s => negb (String.eqb s "")
  | JList l => match l with [] => false | _ => true end
  | JDict d => negb (bool_decide (d = ∅))
  end.

(** [v[key]] for a string key. *)
Definition py_getitem (v : json) (key : string) : Exn + json :=
  match v with
  | JDict d => match d !! key with Some x => inr x | None => inl (KeyError key) end
  | _ => inl TypeError
  end.

(** [v[0]]. *)
Definition py_first (v : json) : Exn + json :=
  match v with
  | JList l => match l with x :: _ => inr x | [] => inl IndexError end
  | JStr s =>
      match s with
      | String c _ => inr (JStr (String c ""))
      | EmptyString => inl IndexError
      end
  | JDict _ => inl (KeyError "0")
  | _ => inl TypeError
  end.

(** [v == s] for a string literal [s]. *)
Definition py_eq_str (v : json) (s : string) : bool :=
  match v with
  | JStr s' => String.eqb s' s
  | _ => false
  end.

(** ** Scenes and asset paths *)

(** One row of the shot list.  [visual_type] is whatever
    [scene.get('visual_type')] yields: any value, [JNull] when absent. *)
Record Scene := {
  scene_number : Z;
  narration_text : string;
  visual_prompt : string;
  visual_type : json
}.

Definition audio_path (scene_num : Z) : string :=
  "audio_clips/scene_" +:+ pretty scene_num +:+ ".mp3".
Definition image_path (scene_num : Z) : string :=
  "visual_assets/scene_" +:+ pretty scene_num +:+ ".png".
Definition video_path (scene_num : Z) : string :=
  "visual_assets/scene_" +:+ pretty scene_num +:+ ".mp4".

(** ** The world the fetchers act on *)

Inductive Request :=
| GeminiGenerate (api_key model_name script : string)
| ElevenLabsGenerate (api_key text voice : string)
| StabilityImage (api_key prompt : string)
| PexelsSearch (api_key query : string)
| Download (url : string)
| StabilityVideo (api_key prompt : string)
| StabilityVideoResult (api_key : string) (generation_id : json).

Inductive Event :=
| Remote (r : Request)
| Slept (seconds : Z)
| Printed (msg : string) (e : Exn).

Record World := {
  files : gmap string bytes;
  trace : list Event
}.

Definition exists_ (w : World) (path : string) : bool :=
  bool_decide (is_Some (files w !! path)).

(** ** Replies of the remote services *)

Record Response := {
  status_code : Z;
  content : bytes;
  json_body : option json
}.

(** What a call comes back with: an exception or a response.  No request
    of the source carries a timeout; a call that never comes back has no
    reply here, and what is proved of a fetcher is proved of the calls
    that are answered. *)
Inductive HttpReply :=
| NoResponse (e : Exn)
| Got (r : Response).

(** A speech request either fails at once or yields chunks, and the
    stream may break after the last of them. *)
Inductive TtsReply :=
| TtsFails (e : Exn)
| TtsStream (chunks : list bytes) (broken : option Exn).

(** The model's answer: the call fails, or it returns a text which
    [json.loads] parses or rejects. *)
Inductive LlmReply :=
| LlmFails (e : Exn)
| LlmText (parsed : option json).

Record Remotes := {
  llm : string → string → string → LlmReply;
  tts : string → string → string → TtsReply;
  http : Request → HttpReply;
  (** the replies to the successive polls of one generation job *)
  video_result : string → json → list HttpReply
}.

(** ** Actions: state, exceptions, and a loop that has not ended *)

Inductive Outcome (A : Type) :=
| Returned (a : A)
| Raised (e : Exn)
| StillPolling.
Arguments Returned {A} a.
Arguments Raised {A} e.
Arguments StillPolling {A}.

Definition Action (A : Type) : Type := World → Outcome A * World.

#[global] Instance action_ret : MRet Action := λ A a w, (Returned a, w).
#[global] Instance action_bind : MBind Action := λ A B f m w,
  match m w with
  | (Returned a, w') => f a w'
  | (Raised e, w') => (Raised e, w')
  | (StillPolling, w') => (StillPolling, w')
  end.

Definition raise {A} (e : Exn) : Action A := λ w, (Raised e, w).

Definition lift {A} (r : Exn + A) : Action A :=
  match r with inl e => raise e | inr a => mret a end.

(** [try: body / except Exception as e: handler e] *)
Definition try_except (body : Action unit) (handler : Exn → Action unit) : Action unit :=
  λ w, match body w with
       | (Raised e, w') => handler e w'
       | r => r
       end.

Definition emit (e : Event) : Action unit :=
  λ w, (Returned (), {| files := files w; trace := trace w ++ [e] |}).

Definition path_exists (path : string) : Action bool :=
  λ w, (Returned (exists_ w path), w).

(** [open(path, "wb")]: the file is there, and empty, from now on. *)
Definition open_wb (path : string) : Action unit :=
  λ w, (Returned (), {| files := <[path := []]> (files w); trace := trace w |}).

(** [f.write(chunk)] on a file opened with [open_wb]. *)
Definition write (path : string) (chunk : bytes) : Action unit :=
  λ w, (Returned (),
        {| files := <[path := default [] (files w !! path) ++ chunk]> (files w);
           trace := trace w |}).

Definition print (msg : string) (e : Exn) : Action unit := emit (Printed msg e).
Definition sleep (seconds : Z) : Action unit := emit (Slept seconds).

(** [response.raise_for_status()] of the requests library: an exception
    for the 4xx and 5xx codes, nothing for any other. *)
Definition raise_for_status (r : Response) : Action unit :=
  if bool_decide (400 ≤ status_code r < 600) then raise (HTTPError (status_code r))
  else mret ().

(** [response.json()] *)
Definition response_json (r : Response) : Action json :=
  match json_body r with
  | Some v => mret v
  | None => raise JSONDecodeError
  end.

(** ** Asset fetchers *)

Section Fetchers.
Variable remote : Remotes.

(** One remote call: the request is recorded, the service replies. *)
Definition request (r : Request) : Action Response :=
  emit (Remote r);;
  match http remote r with
  | NoResponse e => raise e
  | Got resp => mret resp
  end.

(** [requests.get(url)] where [url] came out of a JSON document. *)
Definition requests_get (url : json) : Action Response :=
  match url with
  | JStr u => request (Download u)
  | _ => raise InvalidURL
  end.

(** [for chunk in audio_stream: f.write(chunk)] *)
Fixpoint write_chunks (path : string) (chunks : list bytes) : Action unit :=
  match chunks with
  | [] => mret ()
  | chunk :: rest => write path chunk;; write_chunks path rest
  end.

Definition generate_audio (scene_data : Scene) (api_key voice_id : string) : Action unit :=
  let scene_num := scene_number scene_data in
  let output_path := audio_path scene_num in
  found ← path_exists output_path;
  if found : bool then mret () else
  try_except
    (emit (Remote (ElevenLabsGenerate api_key (narration_text scene_data) voice_id));;
     match tts remote api_key (narration_text scene_data) voice_id with
     | TtsFails e => raise e
     | TtsStream chunks broken =>
         open_wb output_path;;
         write_chunks output_path chunks;;
         match broken with Some e => raise e | None => mret () end
     end)
    (print ("Error generating audio for Scene " +:+ pretty scene_num)).

Definition generate_image (scene_data : Scene) (api_key : string) : Action unit :=
  let scene_num := scene_number scene_data in
  let output_path := image_path scene_num in
  found ← path_exists output_path;
  if found : bool then mret () else
  try_except
    (response ← request (StabilityImage api_key (visual_prompt scene_data));
     raise_for_status response;;
     open_wb output_path;;
     write output_path (content response))
    (print ("Error generating image for Scene " +:+ pretty scene_num)).

Definition download_stock_video (scene_data : Scene) (api_key : string) : Action unit :=
  let scene_num := scene_number scene_data in
  let output_path := video_path scene_num in
  found ← path_exists output_path;
  if found : bool then mret () else
  try_except
    (response ← request (PexelsSearch api_key (visual_prompt scene_data));
     raise_for_status response;;
     results ← response_json response;
     videos ← lift (py_getitem results "videos");
     if negb (py_truthy videos) then mret () else
     video ← lift (py_first videos);
     video_files ← lift (py_getitem video "video_files");
     video_file ← lift (py_first video_files);
     video_url ← lift (py_getitem video_file "link");
     video_response ← requests_get video_url;
     raise_for_status video_response;;
     open_wb output_path;;
     write output_path (content video_response))
    (print ("Error downloading stock video for Scene " +:+ pretty scene_num)).

(** [while True]: one reply of the service is consumed per round.  When
    the replies known so far are used up the loop is still running. *)
Fixpoint poll_loop (output_path api_key : string) (generation_id : json)
         (replies : list HttpReply) : Action unit :=
  match replies with
  | [] => λ w, (StillPolling, w)
  | reply :: later =>
      sleep 20;;
      emit (Remote (StabilityVideoResult api_key generation_id));;
      match reply with
      | NoResponse e => raise e
      | Got result_response =>
          if status_code result_response =? 200 then
            open_wb output_path;;
            write output_path (content result_response)
          else if negb (status_code result_response =? 202) then
            raise_for_status result_response;;
            poll_loop output_path api_key generation_id later
          else poll_loop output_path api_key generation_id later
      end
  end.

Definition generate_video (scene_data : Scene) (api_key : string) : Action unit :=
  let scene_num := scene_number scene_data in
  let output_path := video_path scene_num in
  found ← path_exists output_path;
  if found : bool then mret () else
  try_except
    (response ← request (StabilityVideo api_key (visual_prompt scene_data));
     raise_for_status response;;
     body ← response_json response;
     generation_id ← lift (py_getitem body "id");
     poll_loop output_path api_key generation_id
               (video_result remote api_key generation_id))
    (print ("Error generating video for Scene " +:+ pretty scene_num)).

End Fetchers.

(** ** The dispatch loop of [app.py] *)

Record Keys := {
  elevenlabs_key : string;
  stability_key : string;
  pexels_key : string;
  voice_id : string
}.

(** What [executor.submit] is handed: a fetcher and its arguments. *)
Inductive Task :=
| GenerateAudio (scene : Scene) (api_key voice : string)
| GenerateImage (scene : Scene) (api_key : string)
| DownloadStockVideo (scene : Scene) (api_key : string)
| GenerateVideo (scene : Scene) (api_key : string).

(** The body of [for scene in edited_shot_list]. *)
Definition submit_scene (keys : Keys) (scene : Scene) : list Task :=
  let audio := GenerateAudio scene (elevenlabs_key keys) (voice_id keys) in
  let visual_type := visual_type scene in
  if py_eq_str visual_type "image" then
    [audio; GenerateImage scene (stability_key keys)]
  else if py_eq_str visual_type "stock_footage" then
    [audio; DownloadStockVideo scene (pexels_key keys)]
  else
    [audio; GenerateVideo scene (stability_key keys)].

(** [future_tasks], in submission order. *)
Definition future_tasks (keys : Keys) (edited_shot_list : list Scene) : list Task :=
  edited_shot_list ≫= submit_scene keys.

Definition task_scene (t : Task) : Scene :=
  match t with
  | GenerateAudio s _ _ | GenerateImage s _ | DownloadStockVideo s _ | GenerateVideo s _ => s
  end.

(** The file a task checks before doing anything, and writes at the end. *)
Definition task_target (t : Task) : string :=
  match t with
  | GenerateAudio s _ _ => audio_path (scene_number s)
  | GenerateImage s _ => image_path (scene_number s)
  | DownloadStockVideo s _ | GenerateVideo s _ => video_path (scene_number s)
  end.

Definition run_task (remote : Remotes) (t : Task) : Action unit :=
  match t with
  | GenerateAudio s api_key voice => generate_audio remote s api_key voice
  | GenerateImage s api_key => generate_image remote s api_key
  | DownloadStockVideo s api_key => download_stock_video remote s api_key
  | GenerateVideo s api_key => generate_video remote s api_key
  end.

(** The pool, with the tasks taken in the order in which the workers get
    to them.  A future keeps what its task raised to itself, and a task
    that is still polling holds its worker while the others go on; the
    flag tells whether every task has ended, which is when the [with]
    block of the executor is left. *)
Fixpoint run_tasks (remote : Remotes) (order : list Task) (w : World) : bool * World :=
  match order with
  | [] => (true, w)
  | t :: rest =>
      let '(outcome, w') := run_task remote t w in
      let '(ended, w'') := run_tasks remote rest w' in
      (match outcome with StillPolling => false | _ => ended end, w'')
  end.

(** ** Configuration, and calls that return or raise *)

(** What [config.read('config.ini')] has loaded: sections of options,
    under the names by which the code asks for them. *)
Abbreviation Config := (gmap string (gmap string string)).

(** [config[section][key]] *)
Definition config_get (config : Config) (section key : string) : Exn + string :=
  match config !! section with
  | None => inl (KeyError section)
  | Some options =>
      match options !! key with
      | None => inl (KeyError key)
      | Some value => inr value
      end
  end.

#[global] Instance result_ret : MRet (sum Exn) := λ A a, inr a.
#[global] Instance result_bind : MBind (sum Exn) := λ A B f m,
  match m with
  | inl e => inl e
  | inr a => f a
  end.

(** A library call that returns nothing of interest or raises. *)
Definition raised_by (r : option Exn) : Exn + unit :=
  match r with
  | Some e => inl e
  | None => inr ()
  end.

(** ** Video assembly *)

(** [sorted(l, key=key)]: a stable sort, ascending in the key.  The
    element taken from the front goes before the first element of the
    sorted rest whose key is not smaller, hence before its equals that
    came later in [l]. *)
Fixpoint insert_by_key {A} (key : A → Z) (x : A) (l : list A) : list A :=
  match l with
  | [] => [x]
  | y :: l' => if key x <=? key y then x :: y :: l' else y :: insert_by_key key x l'
  end.

Fixpoint sorted {A} (key : A → Z) (l : list A) : list A :=
  match l with
  | [] => []
  | x :: l' => insert_by_key key x (sorted key l')
  end.

(** The media library is a black box: a clip is described by the calls
    that build it. *)
Inductive Visual :=
| VideoFileClip (path : string)
(** the zoomed and cropped [ImageClip], lasting as long as the audio clip
    read from [audio] *)
| AnimatedImage (path : string) (audio : string).

Definition create_animated_image_clip (image_path audio : string) : Visual :=
  AnimatedImage image_path audio.

(** [CompositeVideoClip([visual_clip, text_clip])] of one scene: the
    visual, cut to the length of the audio and carrying it, under the
    caption. *)
Record SceneClip := {
  clip_scene : Scene;
  clip_audio : string;
  clip_visual : Visual;
  clip_caption : string
}.

(** A clip on the timeline: the first as it is, each later one faded in
    and started [transition] seconds before its predecessor ends. *)
Inductive Placed :=
| Opening (c : SceneClip)
| CrossFaded (transition : float) (c : SceneClip).

Definition placed_clip (p : Placed) : SceneClip :=
  match p with Opening c | CrossFaded _ c => c end.

Record Composition := {
  timeline : list Placed;
  (** the looped music file and its volume, when it is mixed in *)
  music : option (string * float)
}.

Record Settings := {
  TRANSITION_DURATION : float;
  MUSIC_FILE : string;
  MUSIC_VOLUME : float
}.

(** What the body of the loop over the sorted scenes builds from the
    files that are there, [None] being [continue]; the loading of those
    files, which may raise, is in [load_scene_clip] below. *)
Definition scene_clip (w : World) (scene : Scene) : option SceneClip :=
  let scene_num := scene_number scene in
  if negb (exists_ w (audio_path scene_num)) then None else
  let visual_clip :=
    if exists_ w (video_path scene_num) then Some (VideoFileClip (video_path scene_num))
    else if exists_ w (image_path scene_num) then
      Some (create_animated_image_clip (image_path scene_num) (audio_path scene_num))
    else None in
  match visual_clip with
  | None => None
  | Some visual =>
      Some {| clip_scene := scene; clip_audio := audio_path scene_num;
              clip_visual := visual; clip_caption := narration_text scene |}
  end.

Definition scene_clips (w : World) (shot_list : list Scene) : list SceneClip :=
  omap (scene_clip w) (sorted scene_number shot_list).

(** What is handed to [write_videofile], if anything is, once the loop
    has got through the scenes. *)
Definition compose_video (settings : Settings) (w : World) (shot_list : list Scene)
  : option Composition :=
  match scene_clips w shot_list with
  | [] => None
  | first :: others =>
      Some {| timeline := Opening first :: map (CrossFaded (TRANSITION_DURATION settings)) others;
              music := if exists_ w (MUSIC_FILE settings)
                       then Some (MUSIC_FILE settings, MUSIC_VOLUME settings)
                       else None |}
  end.

(** The media library and Python's [float], as far as the assembler
    depends on them.  A loader is given the bytes of the file it opens
    and tells the exception it raises, if it raises one. *)
Record Media := {
  (** [float(text)] *)
  py_float : string → option float;
  (** [AudioFileClip(path)] *)
  audio_file_clip : bytes → option Exn;
  (** [VideoFileClip(path)] *)
  video_file_clip : bytes → option Exn;
  (** [create_animated_image_clip(path, duration)], which opens the image *)
  animated_image_clip : bytes → option Exn;
  (** [TextClip(text, ...)] with the settings of the caption *)
  text_clip : string → option Exn;
  (** [write_videofile]: the bytes it leaves at the output path, if any,
      and the exception it raises, if any *)
  write_videofile : Composition → option bytes * option Exn
}.

(** [float(config['SETTINGS'][key])] *)
Definition config_float (lib : Media) (config : Config) (key : string) : Exn + float :=
  text ← config_get config "SETTINGS" key;
  match py_float lib text with
  | Some x => inr x
  | None => inl ValueError
  end.

(** The three settings, read in the order of the source. *)
Definition read_settings (lib : Media) (config : Config) : Exn + Settings :=
  transition ← config_float lib config "TRANSITION_DURATION_SECONDS";
  music_file ← config_get config "SETTINGS" "BACKGROUND_MUSIC_FILE";
  volume ← config_float lib config "MUSIC_VOLUME";
  mret {| TRANSITION_DURATION := transition; MUSIC_FILE := music_file;
          MUSIC_VOLUME := volume |}.

(** A loader applied to the file at [path]. *)
Definition load_file (loader : bytes → option Exn) (w : World) (path : string)
  : Exn + unit :=
  match files w !! path with
  | Some data => raised_by (loader data)
  | None => inl (OSError path)
  end.

(** The body of the loop over the sorted scenes, loads included: [inl]
    when a load raises, [inr None] for [continue]. *)
Definition load_scene_clip (lib : Media) (w : World) (scene : Scene)
  : Exn + option SceneClip :=
  let scene_num := scene_number scene in
  if negb (exists_ w (audio_path scene_num)) then mret None else
  load_file (audio_file_clip lib) w (audio_path scene_num);;
  visual_clip ←
    (if exists_ w (video_path scene_num) then
       load_file (video_file_clip lib) w (video_path scene_num);;
       mret (Some (VideoFileClip (video_path scene_num)))
     else if exists_ w (image_path scene_num) then
       load_file (animated_image_clip lib) w (image_path scene_num);;
       mret (Some (create_animated_image_clip (image_path scene_num)
                     (audio_path scene_num)))
     else mret None);
  match visual_clip with
  | None => mret None
  | Some visual =>
      raised_by (text_clip lib (narration_text scene));;
      mret (Some {| clip_scene := scene; clip_audio := audio_path scene_num;
                    clip_visual := visual; clip_caption := narration_text scene |})
  end.

(** The loop: the clips appended so far are lost when a load raises. *)
Fixpoint load_scene_clips (lib : Media) (w : World) (scenes : list Scene)
  : Exn + list SceneClip :=
  match scenes with
  | [] => mret []
  | scene :: later =>
      clip ← load_scene_clip lib w scene;
      clips ← load_scene_clips lib w later;
      mret (match clip with Some c => c :: clips | None => clips end)
  end.

(** The music, loaded when its file is there. *)
Definition load_music (lib : Media) (w : World) (settings : Settings)
  : Exn + option (string * float) :=
  if exists_ w (MUSIC_FILE settings) then
    load_file (audio_file_clip lib) w (MUSIC_FILE settings);;
    mret (Some (MUSIC_FILE settings, MUSIC_VOLUME settings))
  else mret None.

Definition write_video (lib : Media) (output_file : string) (video : Composition)
  : Action unit :=
  λ w, let '(written, raised) := write_videofile lib video in
       (match raised with Some e => Raised e | None => Returned () end,
        match written with
        | Some data => {| files := <[output_file := data]> (files w); trace := trace w |}
        | None => w
        end).

Definition assemble_video (lib : Media) (config : Config) (shot_list : list Scene)
           (output_file : string) : Action unit :=
  λ w,
    match read_settings lib config with
    | inl e => (Raised e, w)
    | inr settings =>
        match load_scene_clips lib w (sorted scene_number shot_list) with
        | inl e => (Raised e, w)
        | inr [] => (Returned (), w)
        | inr (first :: others) =>
            let final_clips_with_transitions :=
              Opening first :: map (CrossFaded (TRANSITION_DURATION settings)) others in
            match load_music lib w settings with
            | inl e => (Raised e, w)
            | inr music_mixed =>
                write_video lib output_file
                  {| timeline := final_clips_with_transitions; music := music_mixed |} w
            end
        end
    end.

(** The scenes of the final video, in the order of its timeline. *)
Definition final_scenes (video : option Composition) : list Scene :=
  match video with
  | None => []
  | Some v => map (λ p, clip_scene (placed_clip p)) (timeline v)
  end.

(** A scene the assembler can use: its audio and one visual are there. *)
Definition eligible (w : World) (scene : Scene) : bool :=
  exists_ w (audio_path (scene_number scene)) &&
  (exists_ w (video_path (scene_number scene)) || exists_ w (image_path (scene_number scene))).

(** ** Scene breakdown and the handler of its result *)

(** The client library of the model: configuring it and building the
    model object, either of which may raise. *)
Record Genai := {
  configure : string → option Exn;
  GenerativeModel : string → option Exn
}.

(** The set-up comes before the [try] and is not covered by it. *)
Definition generate_scene_breakdown (genai : Genai) (remote : Remotes) (config : Config)
           (script_content api_key : string) : Action json :=
  lift (raised_by (configure genai api_key));;
  model_name ← lift (config_get config "SETTINGS" "LLM_MODEL");
  lift (raised_by (GenerativeModel genai model_name));;
  emit (Remote (GeminiGenerate api_key model_name script_content));;
  match llm remote api_key model_name script_content with
  | LlmText (Some shot_list_data) => mret shot_list_data
  | LlmText None => print "Error breaking down script with Gemini" JSONDecodeError;; mret JNull
  | LlmFails e => print "Error breaking down script with Gemini" e;; mret JNull
  end.

(** [scenes_list] as the handler picks it out of [shot_list_data]. *)
Definition scenes_list (shot_list_data : json) : json :=
  match shot_list_data with
  | JDict d =>
      match d !! "scenes" with
      | Some scenes => scenes
      | None => JList []
      end
  | JList l => JList l
  | _ => JList []
  end.

Section Handler.
(** [pd.DataFrame], which may reject what it is given *)
Context {DataFrame : Type}.
Variable pd_DataFrame : json → Exn + DataFrame.

(** The session's shot list after the handler, and whether it reported
    success; [inl] when building the frame raised. *)
Definition shot_list_handler (shot_list_df : DataFrame) (shot_list_data : json)
  : Exn + (DataFrame * bool) :=
  let scenes_list := scenes_list shot_list_data in
  if py_truthy scenes_list then
    match pd_DataFrame scenes_list with
    | inl e => inl e
    | inr df => inr (df, true)
    end
  else inr (shot_list_df, false).

End Handler.

(** ** Notions used in the statements *)

(** The order the sort works by. *)
Definition key_le {A} (key : A → Z) (x y : A) : Prop := key x ≤ key y.

(** Every file of [w] is a file of [w']. *)
Definition keeps_files (w w' : World) : Prop :=
  ∀ path, exists_ w path = true → exists_ w' path = true.

(** An action that removes no file. *)
Definition only_adds {A} (m : Action A) : Prop := ∀ w, keeps_files w (m w).2.


(** The world after one more round of the polling loop: 20 seconds of
    sleep and one request for the result. *)
Definition polled (api_key : string) (generation_id : json) (w : World) : World :=
  {| files := files w;
     trace := trace w ++ [Slept 20; Remote (StabilityVideoResult api_key generation_id)] |}.

(** The resolution a file variant of a search result declares, the
    measure by which one variant is of higher quality than another. *)
Definition variant_pixels (variant : json) : Z :=
  match py_getitem variant "width", py_getitem variant "height" with
  | inr (JInt width), inr (JInt height) => width * height
  | _, _ => 0
  end.

Definition highest_quality (variant : json) (variants : list json) : Prop :=
  ∀ v, v ∈ variants → variant_pixels v ≤ variant_pixels variant.

(** ** Worked inputs *)

Definition example_scene (n : Z) (type : string) : Scene :=
  {| scene_number := n; narration_text := "Narration of scene " +:+ pretty n;
     visual_prompt := "a quiet harbour at dawn"; visual_type := JStr type |}.

Definition example_settings : Settings :=
  {| TRANSITION_DURATION := 0.5%float; MUSIC_FILE := "music.mp3"; MUSIC_VOLUME := 0.25%float |}.

Definition example_keys : Keys :=
  {| elevenlabs_key := "el-key"; stability_key := "st-key";
     pexels_key := "px-key"; voice_id := "narrator" |}.

Definition world_of_files (paths : list string) : World :=
  {| files := list_to_map ((λ p, (p, [Byte.x00])) <$> paths); trace := [] |}.

(** Every scene has its audio; 1 and 3 have a video, 2 an image. *)
Definition complete_world : World :=
  world_of_files [audio_path 1; video_path 1; audio_path 2; image_path 2;
                  audio_path 3; video_path 3].

(** Scene 2 has an image but no audio; scene 4 has audio and no visual. *)
Definition partial_world : World :=
  world_of_files [audio_path 1; video_path 1; image_path 2;
                  audio_path 3; image_path 3; audio_path 4].

(** A remote side on which every call fails. *)
Definition offline : Remotes :=
  {| llm := λ _ _ _, LlmFails (RequestException "offline");
     tts := λ _ _ _, TtsFails (RequestException "offline");
     http := λ _, NoResponse (RequestException "offline");
     video_result := λ _ _, [] |}.

(** A scene record as the model returns it. *)
Definition example_record (n : Z) : json :=
  JDict (<["scene_number" := JInt n]>
         (<["narration_text" := JStr "The harbour wakes."]>
          (<["visual_prompt" := JStr "a quiet harbour at dawn"]>
           (<["visual_type" := JStr "stock_footage"]> ∅)))).

(** A frame that keeps the records it is built from. *)
Definition records_frame (v : json) : Exn + list json :=
  match v with
  | JList l => inr l
  | _ => inl TypeError
  end.

(** A search answered with one result that lists its small file first. *)
Definition sd_link : string := "https://videos.example/harbour-640.mp4".
Definition hd_link : string := "https://videos.example/harbour-1920.mp4".

Definition file_variant (quality : string) (width height : Z) (link : string) : json :=
  JDict (<["quality" := JStr quality]>
         (<["width" := JInt width]>
          (<["height" := JInt height]>
           (<["link" := JStr link]> ∅)))).

Definition sd_file : json := file_variant "sd" 640 360 sd_link.
Definition hd_file : json := file_variant "hd" 1920 1080 hd_link.

Definition sd_bytes : bytes := [Byte.x73; Byte.x64].
Definition hd_bytes : bytes := [Byte.x68; Byte.x64].

Definition search_results : json :=
  JDict (<["videos" := JList [JDict (<["video_files" := JList [sd_file; hd_file]]> ∅)]]> ∅).

Definition stock_footage_remote : Remotes :=
  {| llm := λ _ _ _, LlmFails (RequestException "offline");
     tts := λ _ _ _, TtsFails (RequestException "offline");
     http := λ r,
       match r with
       | PexelsSearch _ _ =>
           Got {| status_code := 200; content := []; json_body := Some search_results |}
       | Download url =>
           if String.eqb url sd_link then
             Got {| status_code := 200; content := sd_bytes; json_body := None |}
           else if String.eqb url hd_link then
             Got {| status_code := 200; content := hd_bytes; json_body := None |}
           else NoResponse (RequestException "unknown host")
       | _ => NoResponse (RequestException "offline")
       end;
     video_result := λ _ _, [] |}.

(** A generation job whose result is first answered with 304 and then
    with 200. *)
Definition job_reply : Response :=
  {| status_code := 200; content := [];
     json_body := Some (JDict (<["id" := JStr "job-1"]> ∅)) |}.

Definition video_bytes : bytes := [Byte.x6d; Byte.x70; Byte.x34].

Definition not_modified_remote : Remotes :=
  {| llm := λ _ _ _, LlmFails (RequestException "offline");
     tts := λ _ _ _, TtsFails (RequestException "offline");
     http := λ r,
       match r with
       | StabilityVideo _ _ => Got job_reply
       | _ => NoResponse (RequestException "offline")
       end;
     video_result := λ _ _,
       [Got {| status_code := 304; content := []; json_body := None |};
        Got {| status_code := 200; content := video_bytes; json_body := None |}] |}.

(** ** Further notions *)

(** An action whose every run leaves the world related by [R] to the one
    it started from. *)
Definition preserves (R : relation World) {A} (m : Action A) : Prop :=
  ∀ w, R w (m w).2.

(** [w'] has the files of [w] at every path but [path]. *)
Definition same_files_except (path : string) (w w' : World) : Prop :=
  ∀ q, q ≠ path → files w' !! q = files w !! q.

(** A reply that says the job is still being processed. *)
Definition still_processing (reply : HttpReply) : Prop :=
  ∃ r, reply = Got r ∧ status_code r = 202.

(** What the submission of a job comes to: the id of the job, or the
    exception raised on the way to it. *)
Definition job_id_of (reply : HttpReply) : Exn + json :=
  match reply with
  | NoResponse e => inl e
  | Got r =>
      if bool_decide (400 ≤ status_code r < 600) then inl (HTTPError (status_code r))
      else match json_body r with
           | None => inl JSONDecodeError
           | Some body => py_getitem body "id"
           end
  end.

(** The exception a reply to a poll raises, if it raises one. *)
Definition poll_failure (reply : HttpReply) : option Exn :=
  match reply with
  | NoResponse e => Some e
  | Got r =>
      if bool_decide (400 ≤ status_code r < 600) then Some (HTTPError (status_code r))
      else None
  end.

(** The world once the job has been submitted. *)
Definition submitted (scene : Scene) (api_key : string) (w : World) : World :=
  {| files := files w;
     trace := trace w ++ [Remote (StabilityVideo api_key (visual_prompt scene))] |}.

(** ** Further worked inputs *)

Definition broken_stream_remote : Remotes :=
  {| llm := λ _ _ _, LlmFails (RequestException "offline");
     tts := λ _ _ _, TtsStream [[Byte.x49; Byte.x44]; [Byte.x33]]
                       (Some (RequestException "connection reset"));
     http := λ _, NoResponse (RequestException "offline");
     video_result := λ _ _, [] |}.

Definition image_bytes : bytes := [Byte.x89; Byte.x50; Byte.x4e; Byte.x47].

(** A remote side whose image service is out of credits for one prompt
    and answers every other with an image. *)
Definition image_remote : Remotes :=
  {| llm := λ _ _ _, LlmFails (RequestException "offline");
     tts := λ _ _ _, TtsStream [[Byte.x49; Byte.x44; Byte.x33]] None;
     http := λ r,
       match r with
       | StabilityImage _ prompt =>
           if String.eqb prompt "too expensive" then
             Got {| status_code := 402; content := []; json_body := None |}
           else Got {| status_code := 200; content := image_bytes; json_body := None |}
       | _ => NoResponse (RequestException "offline")
       end;
     video_result := λ _ _, [] |}.

(** A remote side that accepts every video job as "job-1" and answers
    the polls of its result with the given replies. *)
Definition job_remote (replies : list HttpReply) : Remotes :=
  {| llm := λ _ _ _, LlmFails (RequestException "offline");
     tts := λ _ _ _, TtsFails (RequestException "offline");
     http := λ r,
       match r with
       | StabilityVideo _ _ => Got job_reply
       | _ => NoResponse (RequestException "offline")
       end;
     video_result := λ _ _, replies |}.

Definition processing_reply : HttpReply :=
  Got {| status_code := 202; content := []; json_body := None |}.


(** ** The assembler's loads *)



(** The settings of [example_settings] as [config.ini] has them. *)
Definition example_config : Config :=
  <["SETTINGS" :=
      <["TRANSITION_DURATION_SECONDS" := "0.5"]>
        (<["BACKGROUND_MUSIC_FILE" := "music.mp3"]>
           (<["MUSIC_VOLUME" := "0.25"]>
              (<["LLM_MODEL" := "gemini-1.5-flash"]> ∅)))]> ∅.

(** What a loader raises on a file it cannot read. *)
Definition unreadable : Exn := OSError "failed to read the duration of the file".

(** A loader that cannot read an empty file and reads every other. *)
Definition reject_empty (data : bytes) : option Exn :=
  match data with
  | [] => Some unreadable
  | _ => None
  end.

(** A media library whose loaders are of that kind, with a [float] that
    knows the two numbers of the example and a [write_videofile] that
    writes without raising. *)
Definition strict_media : Media :=
  {| py_float := λ text,
       if String.eqb text "0.5" then Some 0.5%float
       else if String.eqb text "0.25" then Some 0.25%float
       else None;
     audio_file_clip := reject_empty;
     video_file_clip := reject_empty;
     animated_image_clip := reject_empty;
     text_clip := λ _, None;
     write_videofile := λ _, (Some video_bytes, None) |}.

(** A client library whose set-up never raises. *)
Definition willing_genai : Genai :=
  {| configure := λ _, None; GenerativeModel := λ _, None |}.

(** A speech service whose stream breaks before its first chunk. *)
Definition empty_stream_remote : Remotes :=
  {| llm := λ _ _ _, LlmFails (RequestException "offline");
     tts := λ _ _ _, TtsStream [] (Some (RequestException "connection reset"));
     http := λ _, NoResponse (RequestException "offline");
     video_result := λ _ _, [] |}.

(** The world in which the audio of a scene was fetched from that
    service: the fetcher has left an empty audio file. *)
Definition after_empty_stream (n : Z) (w : World) : World :=
  (generate_audio empty_stream_remote (example_scene n "video") "el-key" "narrator" w).2.

(** * Properties *)

(** ** The stable sort *)

Section Sorted.
Context {A : Type} (key : A → Z).

Lemma insert_by_key_Permutation x l : insert_by_key key x l ≡ₚ x :: l.
Proof.
  induction l as [|y l IH]; simpl; [done|].
  destruct (key x <=? key y); [done|].
  rewrite IH. apply Permutation_swap.
Qed.


Lemma insert_by_key_ascending x l :
  StronglySorted (key_le key) l → StronglySorted (key_le key) (insert_by_key key x l).
Proof.
  induction 1 as [|y l Hl IH Hy]; simpl.
  - repeat constructor.
  - destruct (Z.leb_spec (key x) (key y)) as [Hxy|Hxy].
    + constructor; [by constructor|].
      constructor; [done|].
      eapply Forall_impl; [exact Hy|]. unfold key_le. intros z ?. lia.
    + constructor; [done|].
      rewrite insert_by_key_Permutation.
      constructor; [unfold key_le; lia | done].
Qed.

Lemma sorted_ascending l : StronglySorted (key_le key) (sorted key l).
Proof.
  induction l; simpl; [constructor | by apply insert_by_key_ascending].
Qed.


Lemma insert_by_key_front x l :
  Forall ((key_le key) x) l → insert_by_key key x l = x :: l.
Proof.
  destruct 1 as [|y l Hy _]; simpl; [done|].
  unfold key_le in Hy. by destruct (Z.leb_spec (key x) (key y)); [|lia].
Qed.

Context (P : A → Prop) `{∀ x, Decision (P x)}.

Lemma filter_insert_by_key x l :
  StronglySorted (key_le key) l →
  filter P (insert_by_key key x l) =
    if decide (P x) then insert_by_key key x (filter P l) else filter P l.
Proof.
  induction 1 as [|y l Hl IH Hy]; simpl.
  - rewrite filter_cons, filter_nil. by destruct (decide (P x)).
  - destruct (Z.leb_spec (key x) (key y)) as [Hxy|Hxy].
    + rewrite (filter_cons _ x). destruct (decide (P x)); [|done].
      symmetry. apply insert_by_key_front.
      apply Forall_forall. intros z [_ Hz]%list_elem_of_filter.
      apply elem_of_cons in Hz as [->|Hz]; [done|].
      rewrite Forall_forall in Hy. specialize (Hy z Hz). unfold key_le in *. lia.
    + rewrite !(filter_cons _ y), IH.
      destruct (decide (P y)), (decide (P x)); simpl; try done.
      by destruct (Z.leb_spec (key x) (key y)); [lia|].
Qed.

(** Filtering commutes with the sort, which is what stability amounts to
    for the scenes that survive the assembler's checks. *)
Lemma sorted_filter l : filter P (sorted key l) = sorted key (filter P l).
Proof.
  induction l as [|x l IH]; simpl; [done|].
  rewrite filter_insert_by_key by apply sorted_ascending.
  rewrite IH, filter_cons. by destruct (decide (P x)).
Qed.

End Sorted.



(** ** The assembler *)

Lemma scene_clip_spec w scene :
  scene_clip w scene =
    if eligible w scene then
      Some {| clip_scene := scene;
              clip_audio := audio_path (scene_number scene);
              clip_visual :=
                if exists_ w (video_path (scene_number scene))
                then VideoFileClip (video_path (scene_number scene))
                else create_animated_image_clip (image_path (scene_number scene))
                                                (audio_path (scene_number scene));
              clip_caption := narration_text scene |}
    else None.
Proof.
  unfold scene_clip, eligible.
  destruct (exists_ w (audio_path _)); simpl; [|done].
  destruct (exists_ w (video_path _)); simpl; [done|].
  by destruct (exists_ w (image_path _)).
Qed.

Lemma scene_clips_scenes w (l : list Scene) :
  clip_scene <$> omap (scene_clip w) l = filter (λ s, eligible w s = true) l.
Proof.
  induction l as [|s l IH]; simpl; [done|].
  rewrite filter_cons, scene_clip_spec.
  destruct (decide (eligible w s = true)) as [E|E].
  - rewrite E. simpl. f_equal. exact IH.
  - apply not_true_is_false in E. rewrite E. exact IH.
Qed.

Lemma final_scenes_compose_video settings w shot_list :
  final_scenes (compose_video settings w shot_list) =
    filter (λ s, eligible w s = true) (sorted scene_number shot_list).
Proof.
  rewrite <- scene_clips_scenes. unfold compose_video, scene_clips.
  destruct (omap _ _) as [|first others]; simpl; [done|].
  f_equal. rewrite <- list_fmap_compose. done.
Qed.

Lemma omap_filter {A B} (f : A → option B) (P : A → Prop) `{∀ x, Decision (P x)}
      (l : list A) :
  (∀ x, ¬ P x → f x = None) → omap f (filter P l) = omap f l.
Proof.
  intros Hf. induction l as [|x l IH]; [done|].
  rewrite filter_cons. destruct (decide (P x)) as [|Hx]; simpl.
  - destruct (f x); [f_equal|]; exact IH.
  - rewrite (Hf x Hx). exact IH.
Qed.

(** Scenes the loop would skip may as well be left out of the shot list. *)
Lemma compose_video_filter settings w (P : Scene → Prop) `{∀ x, Decision (P x)} shot_list :
  (∀ s, eligible w s = true → P s) →
  compose_video settings w (filter P shot_list) = compose_video settings w shot_list.
Proof.
  intros HP. unfold compose_video, scene_clips.
  rewrite <- sorted_filter, omap_filter; [done|].
  intros s Hs. rewrite scene_clip_spec.
  destruct (eligible w s) eqn:E; [|done]. destruct Hs. by apply HP.
Qed.





(** Scenes at which the loop does [continue] without loading anything
    may as well be left out of the list. *)
Lemma load_scene_clips_filter lib w (P : Scene → Prop) `{∀ x, Decision (P x)}
      (l : list Scene) :
  (∀ s, ¬ P s → load_scene_clip lib w s = inr None) →
  load_scene_clips lib w (filter P l) = load_scene_clips lib w l.
Proof.
  intros Hskip. induction l as [|s l IH]; [done|].
  rewrite filter_cons. destruct (decide (P s)) as [|Hs]; simpl.
  - by rewrite IH.
  - rewrite (Hskip s Hs), <- IH. unfold mbind, result_bind, mret, result_ret.
    by destruct (load_scene_clips lib w (filter P l)).
Qed.

Lemma assemble_video_filter lib config w (P : Scene → Prop) `{∀ x, Decision (P x)}
      shot_list output_file :
  (∀ s, ¬ P s → load_scene_clip lib w s = inr None) →
  assemble_video lib config (filter P shot_list) output_file w
  = assemble_video lib config shot_list output_file w.
Proof.
  intros Hskip. unfold assemble_video.
  by rewrite <- sorted_filter, load_scene_clips_filter.
Qed.










(** C9, as amended. A scene whose audio file exists and loads, but which
    has neither a video nor an image file, is dropped: it is not in the
    composition, and the outcome of the assembler is the outcome for the
    shot list without the scenes of that number. *)
Theorem scene_without_visual_is_dropped
    lib config settings w shot_list output_file scene data :
  files w !! audio_path (scene_number scene) = Some data →
  audio_file_clip lib data = None →
  exists_ w (video_path (scene_number scene)) = false →
  exists_ w (image_path (scene_number scene)) = false →
  (scene ∉ final_scenes (compose_video settings w shot_list))
  ∧ assemble_video lib config shot_list output_file w
    = assemble_video lib config
        (filter (λ s, scene_number s ≠ scene_number scene) shot_list) output_file w.
Proof.
  intros Haudio Hloads Hvideo Himage. split.
  - rewrite final_scenes_compose_video. intros [E _]%list_elem_of_filter.
    unfold eligible in E. by rewrite Hvideo, Himage, andb_false_r in E.
  - symmetry. apply assemble_video_filter.
    intros s Hs. apply dec_stable in Hs.
    unfold load_scene_clip, load_file. rewrite Hs, Hvideo, Himage, Haudio, Hloads.
    assert (exists_ w (audio_path (scene_number scene)) = true) as ->; [|done].
    unfold exists_. apply bool_decide_eq_true. rewrite Haudio. eauto.
Qed.

Lemma scene_without_visual_is_dropped_witness :
  (example_scene 4 "video" ∉
     final_scenes (compose_video example_settings partial_world
                     [example_scene 4 "video"; example_scene 1 "video"]))
  ∧ assemble_video strict_media example_config
      [example_scene 4 "video"; example_scene 1 "video"] "final_video_output.mp4"
      partial_world
    = assemble_video strict_media example_config [example_scene 1 "video"]
        "final_video_output.mp4" partial_world.
Proof.
  apply (scene_without_visual_is_dropped strict_media example_config example_settings
           partial_world [example_scene 4 "video"; example_scene 1 "video"]
           "final_video_output.mp4" (example_scene 4 "video") [Byte.x00]);
    reflexivity.
Defined.

(** C9, as stated, fails here: scene 4 has an audio file, empty, and no
    visual; it is not dropped in silence, for with it in the shot list
    the assembler raises and nothing is written, while the shot list
    without it is assembled. *)
Lemma scene_with_unusable_audio_is_not_dropped :
  let w := after_empty_stream 4 complete_world in
  exists_ w (audio_path 4) = true
  ∧ exists_ w (video_path 4) = false
  ∧ exists_ w (image_path 4) = false
  ∧ assemble_video strict_media example_config
      [example_scene 4 "video"; example_scene 1 "video"] "final_video_output.mp4" w
    = (Raised unreadable, w)
  ∧ assemble_video strict_media example_config [example_scene 1 "video"]
      "final_video_output.mp4" w
    = (Returned (),
       {| files := <["final_video_output.mp4" := video_bytes]> (files w);
          trace := trace w |}).
Proof. repeat split; reflexivity. Qed.

(** ** Files are only ever added *)

#[global] Instance keeps_files_preorder : PreOrder keeps_files.
Proof. split; [by intros w p | intros w1 w2 w3 H12 H23 p Hp; auto]. Qed.

Lemma exists_insert w path path' data t :
  exists_ w path = true →
  exists_ {| files := <[path' := data]> (files w); trace := t |} path = true.
Proof.
  unfold exists_. simpl. rewrite !bool_decide_eq_true.
  destruct (decide (path' = path)) as [->|Hne].
  - rewrite lookup_insert_eq. eauto.
  - by rewrite lookup_insert_ne.
Qed.

Section OnlyAdds.
Context {A B : Type}.

Lemma only_adds_ret (a : A) : only_adds (mret a).
Proof. by intros w p. Qed.

Lemma only_adds_raise e : only_adds (raise e : Action A).
Proof. by intros w p. Qed.

Lemma only_adds_lift (r : Exn + A) : only_adds (lift r).
Proof. destruct r; [apply only_adds_raise | apply only_adds_ret]. Qed.

Lemma only_adds_bind (m : Action A) (f : A → Action B) :
  only_adds m → (∀ a, only_adds (f a)) → only_adds (m ≫= f).
Proof.
  intros Hm Hf w. specialize (Hm w). unfold mbind, action_bind.
  destruct (m w) as [[a|e|] w']; simpl in *; [|done..].
  etrans; [exact Hm | apply Hf].
Qed.

End OnlyAdds.

Lemma only_adds_try_except body handler :
  only_adds body → (∀ e, only_adds (handler e)) → only_adds (try_except body handler).
Proof.
  intros Hb Hh w. specialize (Hb w). unfold try_except.
  destruct (body w) as [[a|e|] w']; simpl in *; [done| |done].
  etrans; [exact Hb | apply Hh].
Qed.

Lemma only_adds_emit e : only_adds (emit e).
Proof. by intros w p. Qed.

Lemma only_adds_path_exists path : only_adds (path_exists path).
Proof. by intros w p. Qed.

Lemma only_adds_open_wb path : only_adds (open_wb path).
Proof. intros w p Hp. by apply exists_insert. Qed.

Lemma only_adds_write path chunk : only_adds (write path chunk).
Proof. intros w p Hp. by apply exists_insert. Qed.

Lemma only_adds_still_polling {A} : only_adds (λ w, (@StillPolling A, w)).
Proof. by intros w p. Qed.

Ltac only_adds_step :=
  first
    [ apply only_adds_bind; [|intros ?]
    | apply only_adds_try_except; [|intros ?]
    | apply only_adds_ret | apply only_adds_raise | apply only_adds_lift
    | apply only_adds_emit | apply only_adds_path_exists
    | apply only_adds_open_wb | apply only_adds_write
    | apply only_adds_still_polling
    | assumption
    | match goal with
      | |- only_adds (if ?b then _ else _) => destruct b
      | |- only_adds (match ?x with _ => _ end) => destruct x
      end ].

Ltac only_adds := repeat only_adds_step.

Lemma only_adds_raise_for_status r : only_adds (raise_for_status r).
Proof. unfold raise_for_status. only_adds. Qed.

Lemma only_adds_response_json r : only_adds (response_json r).
Proof. unfold response_json. only_adds. Qed.

Section FetchersOnlyAdd.
Variable remote : Remotes.

Lemma only_adds_request r : only_adds (request remote r).
Proof. unfold request. only_adds. Qed.

Lemma only_adds_requests_get url : only_adds (requests_get remote url).
Proof. unfold requests_get. destruct url; only_adds; apply only_adds_request. Qed.

Lemma only_adds_write_chunks path chunks : only_adds (write_chunks path chunks).
Proof. induction chunks; simpl; only_adds. Qed.

Lemma only_adds_poll_loop output_path api_key generation_id replies :
  only_adds (poll_loop output_path api_key generation_id replies).
Proof.
  induction replies as [|reply later IH]; simpl; [apply only_adds_still_polling|].
  unfold sleep. only_adds; apply only_adds_raise_for_status.
Qed.

Lemma only_adds_run_task t : only_adds (run_task remote t).
Proof.
  destruct t; simpl;
    unfold generate_audio, generate_image, download_stock_video, generate_video, print;
    only_adds;
    first [ apply only_adds_request | apply only_adds_requests_get
          | apply only_adds_raise_for_status | apply only_adds_response_json
          | apply only_adds_write_chunks | apply only_adds_poll_loop ].
Qed.

End FetchersOnlyAdd.

(** ** Fetchers and the dispatch loop *)

Lemma run_task_existing remote t w :
  exists_ w (task_target t) = true → run_task remote t w = (Returned (), w).
Proof.
  intros Hexists.
  destruct t; simpl in *;
    unfold generate_audio, generate_image, download_stock_video, generate_video;
    unfold mbind, action_bind, path_exists; by rewrite Hexists.
Qed.

(** A task whose file was there when the pool started finds it there
    when its turn comes, so the run is the run without that task. *)
Lemma run_tasks_skips_existing remote order w0 w :
  keeps_files w0 w →
  run_tasks remote order w =
    run_tasks remote (filter (λ t, exists_ w0 (task_target t) = false) order) w.
Proof.
  revert w. induction order as [|t rest IH]; intros w Hkeeps; [done|].
  rewrite filter_cons. destruct (decide (exists_ w0 (task_target t) = false)) as [Hnew|Hold].
  - simpl. pose proof (only_adds_run_task remote t w) as Hgrow.
    destruct (run_task remote t w) as [outcome w'].
    rewrite <- IH; [done|]. etrans; [exact Hkeeps | exact Hgrow].
  - apply not_false_is_true in Hold.
    simpl. rewrite (run_task_existing remote t w) by auto.
    rewrite <- IH by done. by destruct (run_tasks remote rest w).
Qed.

(** C1. A fetcher (audio, image, stock video, generated video) invoked
    on a scene whose target file exists returns at once: no request is
    issued and the files are as they were.  Hence a run of the tasks of
    any shot list, in whatever order the pool takes them, is the run of
    those tasks only whose file was not there at the start. *)
Theorem existing_asset_is_not_fetched_again remote :
  (∀ t w, exists_ w (task_target t) = true → run_task remote t w = (Returned (), w))
  ∧ (∀ keys shot_list order w,
       order ≡ₚ future_tasks keys shot_list →
       run_tasks remote order w =
         run_tasks remote (filter (λ t, exists_ w (task_target t) = false) order) w).
Proof.
  split.
  - apply run_task_existing.
  - intros keys shot_list order w _. by apply run_tasks_skips_existing.
Qed.

Lemma existing_asset_is_not_fetched_again_witness :
  exists_ partial_world (task_target (GenerateVideo (example_scene 1 "video") "st-key")) = true
  ∧ run_task offline (GenerateVideo (example_scene 1 "video") "st-key") partial_world
    = (Returned (), partial_world)
  ∧ run_tasks offline (future_tasks example_keys [example_scene 1 "video"]) partial_world
    = (true, partial_world).
Proof.
  destruct (existing_asset_is_not_fetched_again offline) as [Hone Hall].
  split; [reflexivity|]. split.
  - apply Hone. reflexivity.
  - rewrite (Hall example_keys [example_scene 1 "video"]); reflexivity.
Defined.




(** ** The two shapes of a breakdown *)

(** C6. A wrapper object whose "scenes" entry is a list of scene
    records, and that list on its own, leave the handler with the same
    shot list and the same report: for records that are there, the frame
    that [pd.DataFrame] builds from them, reported as a success, or the
    exception it raises; for no records at all, the shot list the
    session had, reported as a failure. *)
Theorem bare_list_and_wrapper_give_same_shot_list
    {DataFrame : Type} (pd_DataFrame : json → Exn + DataFrame)
    (shot_list_df : DataFrame) (records : list json) (wrapper : gmap string json) :
  wrapper !! "scenes" = Some (JList records) →
  scenes_list (JDict wrapper) = JList records
  ∧ scenes_list (JList records) = JList records
  ∧ shot_list_handler pd_DataFrame shot_list_df (JDict wrapper)
    = shot_list_handler pd_DataFrame shot_list_df (JList records)
  ∧ shot_list_handler pd_DataFrame shot_list_df (JList records)
    = match records with
      | [] => inr (shot_list_df, false)
      | _ :: _ =>
          match pd_DataFrame (JList records) with
          | inl e => inl e
          | inr frame => inr (frame, true)
          end
      end.
Proof.
  intros Hscenes.
  assert (scenes_list (JDict wrapper) = JList records) as Hwrapped
    by (simpl; by rewrite Hscenes).
  split; [done|]. split; [done|]. split.
  - unfold shot_list_handler. by rewrite Hwrapped.
  - unfold shot_list_handler. simpl. by destruct records.
Qed.

Lemma bare_list_and_wrapper_give_same_shot_list_witness :
  shot_list_handler records_frame []
    (JDict (<["scenes" := JList [example_record 1; example_record 2]]> ∅))
  = shot_list_handler records_frame [] (JList [example_record 1; example_record 2])
  ∧ shot_list_handler records_frame [] (JList [example_record 1; example_record 2])
    = inr ([example_record 1; example_record 2], true).
Proof.
  destruct (bare_list_and_wrapper_give_same_shot_list records_frame []
              [example_record 1; example_record 2]
              (<["scenes" := JList [example_record 1; example_record 2]]> ∅))
    as (_ & _ & Hsame & Hframe); [reflexivity|].
  split; [exact Hsame | exact Hframe].
Defined.

(** ** The stock-video fetcher *)

Ltac run_action :=
  repeat progress
    (unfold try_except, raise, lift, request, requests_get, emit, print, sleep,
       path_exists, open_wb, write, raise_for_status, response_json,
       mbind, action_bind, mret, action_ret;
     simpl).

Lemma write_new_file w path data t :
  {| files := <[path := default [] (<[path := []]> (files w) !! path) ++ data]>
                (<[path := []]> (files w));
     trace := t |}
  = {| files := <[path := data]> (files w); trace := t |}.
Proof. by rewrite lookup_insert_eq, insert_insert_eq. Qed.

(** C5, as amended. For a scene whose video file is not there yet and
    whose search is answered: with zero results the fetcher writes
    nothing and prints nothing; with results it downloads the first
    listed file of the first result, whatever its quality, and when that
    download succeeds writes it to the scene's video path. *)
Theorem stock_video_takes_first_listed_file
    remote scene api_key w search results videos :
  exists_ w (video_path (scene_number scene)) = false →
  http remote (PexelsSearch api_key (visual_prompt scene)) = Got search →
  ¬ (400 ≤ status_code search < 600) →
  json_body search = Some results →
  py_getitem results "videos" = inr videos →
  (py_truthy videos = false →
     download_stock_video remote scene api_key w =
       (Returned (),
        {| files := files w;
           trace := trace w ++ [Remote (PexelsSearch api_key (visual_prompt scene))] |}))
  ∧ (∀ video others variant variants url reply,
       videos = JList (video :: others) →
       py_getitem video "video_files" = inr (JList (variant :: variants)) →
       py_getitem variant "link" = inr (JStr url) →
       http remote (Download url) = Got reply →
       ¬ (400 ≤ status_code reply < 600) →
       download_stock_video remote scene api_key w =
         (Returned (),
          {| files := <[video_path (scene_number scene) := content reply]> (files w);
             trace := trace w ++ [Remote (PexelsSearch api_key (visual_prompt scene));
                                  Remote (Download url)] |})).
Proof.
  intros Hnew Hsearch Hok Hbody Hvideos.
  split.
  - intros Hnone. unfold download_stock_video. run_action.
    rewrite Hnew, Hsearch. run_action. rewrite bool_decide_eq_false_2 by done.
    rewrite Hbody. run_action. rewrite Hvideos. run_action. by rewrite Hnone.
  - intros video others variant variants url reply -> Hfiles Hlink Hreply Hgot.
    unfold download_stock_video. run_action.
    rewrite Hnew, Hsearch. run_action. rewrite bool_decide_eq_false_2 by done.
    rewrite Hbody. run_action. rewrite Hvideos. run_action.
    rewrite Hfiles. run_action. rewrite Hlink. run_action.
    rewrite Hreply. run_action. rewrite bool_decide_eq_false_2 by done.
    rewrite write_new_file. by rewrite <- app_assoc.
Qed.

Lemma stock_video_takes_first_listed_file_witness :
  download_stock_video stock_footage_remote (example_scene 6 "stock_footage") "px-key"
    (world_of_files [])
  = (Returned (),
     {| files := <[video_path 6 := sd_bytes]> ∅;
        trace := [Remote (PexelsSearch "px-key" "a quiet harbour at dawn");
                  Remote (Download sd_link)] |}).
Proof.
  refine (proj2 (stock_video_takes_first_listed_file stock_footage_remote
                   (example_scene 6 "stock_footage") "px-key" (world_of_files [])
                   {| status_code := 200; content := []; json_body := Some search_results |}
                   search_results
                   (JList [JDict (<["video_files" := JList [sd_file; hd_file]]> ∅)])
                   _ _ _ _ _)
                (JDict (<["video_files" := JList [sd_file; hd_file]]> ∅)) []
                sd_file [hd_file] sd_link
                {| status_code := 200; content := sd_bytes; json_body := None |}
                _ _ _ _ _);
    try reflexivity; simpl; lia.
Defined.

(** C5, as stated, fails here: the first result offers a 640x360 and a
    1920x1080 file, in this order; the fetcher requests and writes the
    640x360 one, which is not the file of highest quality. *)
Lemma stock_video_is_not_highest_quality :
  let run := download_stock_video stock_footage_remote
               (example_scene 6 "stock_footage") "px-key" (world_of_files []) in
  files run.2 !! video_path 6 = Some sd_bytes
  ∧ trace run.2 = [Remote (PexelsSearch "px-key" "a quiet harbour at dawn");
                   Remote (Download sd_link)]
  ∧ variant_pixels sd_file < variant_pixels hd_file
  ∧ ¬ highest_quality sd_file [sd_file; hd_file]
  ∧ highest_quality hd_file [sd_file; hd_file]
  ∧ http stock_footage_remote (Download hd_link)
    = Got {| status_code := 200; content := hd_bytes; json_body := None |}
  ∧ sd_bytes ≠ hd_bytes.
Proof.
  simpl. split; [reflexivity|]. split; [reflexivity|]. split; [reflexivity|].
  split; [|split; [|split; [reflexivity | discriminate]]].
  - intros Hbest. specialize (Hbest hd_file).
    assert (variant_pixels hd_file ≤ variant_pixels sd_file) as Hle
      by (apply Hbest; apply elem_of_cons; right; apply elem_of_cons; by left).
    vm_compute in Hle. by apply Hle.
  - intros v Hv. apply elem_of_cons in Hv as [->|Hv]; [by vm_compute|].
    apply list_elem_of_singleton in Hv as ->. by vm_compute.
Qed.

(** ** The polling loop of the generated-video fetcher *)

Section PollLoop.
Variables (output_path api_key : string) (generation_id : json).
Variables (r : Response) (later : list HttpReply) (w : World).

Lemma poll_loop_round :
  poll_loop output_path api_key generation_id (Got r :: later) w =
    let w' := polled api_key generation_id w in
    if status_code r =? 200 then
      (Returned (), {| files := <[output_path := content r]> (files w'); trace := trace w' |})
    else if negb (status_code r =? 202) && bool_decide (400 ≤ status_code r < 600) then
      (Raised (HTTPError (status_code r)), w')
    else poll_loop output_path api_key generation_id later w'.
Proof.
  unfold polled. simpl. run_action. rewrite <- app_assoc. simpl.
  destruct (status_code r =? 200); [by rewrite write_new_file|].
  destruct (status_code r =? 202); simpl; [done|].
  run_action. by destruct (bool_decide _).
Qed.

(** Still processing: the loop goes round again. *)
Lemma poll_loop_processing :
  status_code r = 202 →
  poll_loop output_path api_key generation_id (Got r :: later) w =
    poll_loop output_path api_key generation_id later (polled api_key generation_id w).
Proof. intros Hs. rewrite poll_loop_round, Hs. done. Qed.

(** Ready: the bytes are written and the loop is left; what the service
    would have said later is never asked for. *)
Lemma poll_loop_ready :
  status_code r = 200 →
  poll_loop output_path api_key generation_id (Got r :: later) w =
    (Returned (),
     {| files := <[output_path := content r]> (files w);
        trace := trace (polled api_key generation_id w) |}).
Proof. intros Hs. rewrite poll_loop_round, Hs. done. Qed.

(** A 4xx or 5xx status: [raise_for_status] raises, the loop is left. *)
Lemma poll_loop_error :
  400 ≤ status_code r < 600 →
  poll_loop output_path api_key generation_id (Got r :: later) w =
    (Raised (HTTPError (status_code r)), polled api_key generation_id w).
Proof.
  intros Hs. rewrite poll_loop_round.
  destruct (Z.eqb_spec (status_code r) 200); [lia|].
  destruct (Z.eqb_spec (status_code r) 202); [lia|].
  simpl. by rewrite bool_decide_eq_true_2.
Qed.

(** Any other status, be it 1xx, 3xx or a 2xx other than 200 and 202:
    [raise_for_status] raises nothing, and the loop goes round again as
    if the job were still processing. *)
Lemma poll_loop_other_status :
  status_code r ≠ 200 → ¬ (400 ≤ status_code r < 600) →
  poll_loop output_path api_key generation_id (Got r :: later) w =
    poll_loop output_path api_key generation_id later (polled api_key generation_id w).
Proof.
  intros H200 Herr. rewrite poll_loop_round.
  destruct (Z.eqb_spec (status_code r) 200); [done|].
  rewrite bool_decide_eq_false_2 by done. by rewrite andb_false_r.
Qed.

End PollLoop.

(** As long as the service says "processing" the loop polls: however
    many such replies there are, each costs one sleep and one request,
    and the loop has not returned after the last of them. *)
Lemma poll_loop_unbounded output_path api_key generation_id (replies : list HttpReply) w :
  Forall (λ reply, ∃ r, reply = Got r ∧ status_code r = 202) replies →
  poll_loop output_path api_key generation_id replies w =
    (StillPolling, Nat.iter (length replies) (polled api_key generation_id) w).
Proof.
  intros Hall. revert w. induction Hall as [|reply later (r & -> & Hs) _ IH]; intros w.
  - done.
  - rewrite poll_loop_processing by done. rewrite IH.
    simpl. f_equal. clear. induction (length later) as [|n IHn]; [done|].
    simpl. by rewrite IHn.
Qed.

(** C7, on the code: a poll answered with status 304, which is neither
    success nor "still processing", does not end the fetch.  Nothing is
    raised and nothing printed; the loop sleeps, polls again, and here
    gets the video with its second request.  In general a round answered
    with 304 leaves the loop where a round answered with 202 leaves it. *)
Theorem generate_video_polls_again_after_304 :
  generate_video not_modified_remote (example_scene 7 "video") "st-key" (world_of_files [])
  = (Returned (),
     {| files := <[video_path 7 := video_bytes]> ∅;
        trace := [Remote (StabilityVideo "st-key" "a quiet harbour at dawn");
                  Slept 20; Remote (StabilityVideoResult "st-key" (JStr "job-1"));
                  Slept 20; Remote (StabilityVideoResult "st-key" (JStr "job-1"))] |})
  ∧ ∀ output_path api_key generation_id body parsed later w,
      poll_loop output_path api_key generation_id
        (Got {| status_code := 304; content := body; json_body := parsed |} :: later) w
      = poll_loop output_path api_key generation_id later (polled api_key generation_id w).
Proof.
  split; [reflexivity|].
  intros. apply poll_loop_other_status; simpl; lia.
Qed.

(** * Further properties *)

(** ** What a fetcher leaves alone *)

Section Preserves.
Context (R : relation World) `{!PreOrder R}.

Lemma preserves_ret {A} (a : A) : preserves R (mret a).
Proof. by intros w. Qed.

Lemma preserves_raise {A} e : preserves R (raise e : Action A).
Proof. by intros w. Qed.

Lemma preserves_lift {A} (r : Exn + A) : preserves R (lift r).
Proof. destruct r; [apply preserves_raise | apply preserves_ret]. Qed.

Lemma preserves_path_exists path : preserves R (path_exists path).
Proof. by intros w. Qed.

Lemma preserves_still_polling {A} : preserves R (λ w, (@StillPolling A, w)).
Proof. by intros w. Qed.

Lemma preserves_bind {A B} (m : Action A) (f : A → Action B) :
  preserves R m → (∀ a, preserves R (f a)) → preserves R (m ≫= f).
Proof.
  intros Hm Hf w. specialize (Hm w). unfold mbind, action_bind.
  destruct (m w) as [[a|e|] w']; simpl in *; [|done..].
  etrans; [exact Hm | apply Hf].
Qed.

Lemma preserves_try_except body handler :
  preserves R body → (∀ e, preserves R (handler e)) → preserves R (try_except body handler).
Proof.
  intros Hb Hh w. specialize (Hb w). unfold try_except.
  destruct (body w) as [[a|e|] w']; simpl in *; [done| |done].
  etrans; [exact Hb | apply Hh].
Qed.

Lemma preserves_raise_for_status r : preserves R (raise_for_status r).
Proof.
  unfold raise_for_status.
  destruct (bool_decide _); [apply preserves_raise | apply preserves_ret].
Qed.

Lemma preserves_response_json r : preserves R (response_json r).
Proof.
  unfold response_json.
  destruct (json_body r); [apply preserves_ret | apply preserves_raise].
Qed.

(** What is asked of [R]: it holds across an event, and across the
    opening and the writing of the one file [target]. *)
Context (target : string).
Hypothesis R_emit : ∀ e, preserves R (emit e).
Hypothesis R_open : preserves R (open_wb target).
Hypothesis R_write : ∀ chunk, preserves R (write target chunk).

Ltac preserves_step :=
  first
    [ apply preserves_bind; [|intros ?]
    | apply preserves_try_except; [|intros ?]
    | apply preserves_ret | apply preserves_raise | apply preserves_lift
    | apply preserves_path_exists | apply preserves_still_polling
    | apply preserves_raise_for_status | apply preserves_response_json
    | apply R_emit | apply R_open | apply R_write
    | assumption
    | match goal with
      | |- preserves _ (if ?b then _ else _) => destruct b
      | |- preserves _ (match ?x with _ => _ end) => destruct x
      end ].

Variable remote : Remotes.

Lemma preserves_request r : preserves R (request remote r).
Proof. unfold request. repeat preserves_step. Qed.

Lemma preserves_requests_get url : preserves R (requests_get remote url).
Proof. unfold requests_get. destruct url; repeat preserves_step; apply preserves_request. Qed.

Lemma preserves_write_chunks chunks : preserves R (write_chunks target chunks).
Proof. induction chunks; simpl; repeat preserves_step. Qed.

Lemma preserves_poll_loop api_key generation_id replies :
  preserves R (poll_loop target api_key generation_id replies).
Proof.
  induction replies as [|reply later IH]; simpl; [apply preserves_still_polling|].
  unfold sleep. repeat preserves_step.
Qed.

Lemma preserves_run_task t : task_target t = target → preserves R (run_task remote t).
Proof.
  intros Ht. destruct t; simpl in *;
    unfold generate_audio, generate_image, download_stock_video, generate_video, print;
    cbv zeta; rewrite Ht;
    repeat preserves_step;
    first [ apply preserves_request | apply preserves_requests_get
          | apply preserves_write_chunks | apply preserves_poll_loop ].
Qed.

End Preserves.

#[global] Instance same_files_except_preorder path : PreOrder (same_files_except path).
Proof.
  split; [by intros w q | intros w1 w2 w3 H12 H23 q Hq].
  by rewrite (H23 q Hq), (H12 q Hq).
Qed.

Lemma run_task_same_files_except remote t w :
  same_files_except (task_target t) w (run_task remote t w).2.
Proof.
  apply (preserves_run_task (same_files_except (task_target t)) (task_target t));
    [by intros e w' q| | |done].
  - intros w' q Hq. simpl. by rewrite lookup_insert_ne.
  - intros chunk w' q Hq. simpl. by rewrite lookup_insert_ne.
Qed.

Lemma exists_false_lookup w path : exists_ w path = false ↔ files w !! path = None.
Proof.
  unfold exists_. rewrite bool_decide_eq_false, <- eq_None_not_Some. done.
Qed.

Lemma exists_true_lookup w path : exists_ w path = true ↔ is_Some (files w !! path).
Proof. unfold exists_. by rewrite bool_decide_eq_true. Qed.

(** A file that is there is never written again by a task: its bytes
    are the same after the task as before. *)
Lemma run_task_keeps_contents remote t w path data :
  files w !! path = Some data → files (run_task remote t w).2 !! path = Some data.
Proof.
  intros Hdata. destruct (exists_ w (task_target t)) eqn:Hexists.
  - by rewrite run_task_existing.
  - rewrite run_task_same_files_except; [done|].
    intros ->. apply exists_false_lookup in Hexists. congruence.
Qed.

(** X1. The pool never overwrites or removes a file: whatever bytes a
    path holds before the tasks run, it holds after them, whichever
    tasks run and in whatever order. *)
Theorem pool_never_overwrites remote order w path data :
  files w !! path = Some data →
  files (run_tasks remote order w).2 !! path = Some data.
Proof.
  revert w. induction order as [|t rest IH]; intros w Hdata; [done|].
  simpl. pose proof (run_task_keeps_contents remote t w path data Hdata) as Hstep.
  destruct (run_task remote t w) as [outcome w']. simpl in Hstep.
  specialize (IH w' Hstep). by destruct (run_tasks remote rest w').
Qed.

Lemma pool_never_overwrites_witness :
  files (run_tasks stock_footage_remote
           (future_tasks example_keys [example_scene 1 "video"; example_scene 6 "stock_footage"])
           partial_world).2 !! video_path 1 = Some [Byte.x00].
Proof. apply pool_never_overwrites. reflexivity. Defined.

(** X2. The pool writes no file but the targets of its tasks: a path
    that is the target of none of them holds after the run what it held
    before, or is as absent as before. *)
Theorem pool_writes_only_task_targets remote order w path :
  (∀ t, t ∈ order → task_target t ≠ path) →
  files (run_tasks remote order w).2 !! path = files w !! path.
Proof.
  revert w. induction order as [|t rest IH]; intros w Hother; [done|].
  simpl. pose proof (run_task_same_files_except remote t w path) as Hstep.
  destruct (run_task remote t w) as [outcome w']. simpl in Hstep.
  rewrite <- Hstep.
  - assert (files (run_tasks remote rest w').2 !! path = files w' !! path) as Hrest.
    { apply IH. intros t' Ht'. apply Hother. by apply elem_of_cons; right. }
    by destruct (run_tasks remote rest w').
  - intros Heq. apply (Hother t); [by apply elem_of_cons; left | done].
Qed.

Lemma pool_writes_only_task_targets_witness :
  files (run_tasks stock_footage_remote
           (future_tasks example_keys [example_scene 6 "stock_footage"])
           (world_of_files [])).2 !! "final_video_output.mp4" = None.
Proof.
  rewrite pool_writes_only_task_targets; [reflexivity|].
  intros t Ht. apply elem_of_cons in Ht as [->|Ht]; [discriminate|].
  apply list_elem_of_singleton in Ht as ->. discriminate.
Defined.

(** ** What the audio and image fetchers leave behind *)

Lemma write_chunks_appends path chunks w data :
  files w !! path = Some data →
  write_chunks path chunks w =
    (Returned (),
     {| files := <[path := data ++ concat chunks]> (files w); trace := trace w |}).
Proof.
  revert w data. induction chunks as [|chunk rest IH]; intros w data Hdata; simpl.
  - rewrite app_nil_r, insert_id by done. by destruct w.
  - run_action. rewrite Hdata. simpl.
    rewrite (IH _ (data ++ chunk)) by (simpl; apply lookup_insert_eq).
    simpl. by rewrite insert_insert_eq, app_assoc.
Qed.

(** X4. What [generate_audio] does for a scene without audio file.  If
    the speech request fails at once, no file is made and the failure is
    printed.  Once the stream has started the file is made and holds the
    chunks received, in order; if the stream then breaks, the failure is
    printed, the partial file stays, and a later call to the fetcher,
    whatever the service would answer then, takes the file as done. *)
Theorem audio_file_holds_the_received_chunks remote scene api_key voice w :
  exists_ w (audio_path (scene_number scene)) = false →
  let asked := trace w ++ [Remote (ElevenLabsGenerate api_key (narration_text scene) voice)] in
  let msg := "Error generating audio for Scene " +:+ pretty (scene_number scene) in
  let after := generate_audio remote scene api_key voice w in
  after =
    match tts remote api_key (narration_text scene) voice with
    | TtsFails e =>
        (Returned (), {| files := files w; trace := asked ++ [Printed msg e] |})
    | TtsStream chunks broken =>
        (Returned (),
         {| files := <[audio_path (scene_number scene) := concat chunks]> (files w);
            trace := asked ++ match broken with Some e => [Printed msg e] | None => [] end |})
    end
  ∧ (∀ chunks broken remote' api_key' voice',
       tts remote api_key (narration_text scene) voice = TtsStream chunks broken →
       generate_audio remote' scene api_key' voice' after.2 = (Returned (), after.2)).
Proof.
  intros Hnew asked msg after.
  assert (Hrun : after =
    match tts remote api_key (narration_text scene) voice with
    | TtsFails e =>
        (Returned (), {| files := files w; trace := asked ++ [Printed msg e] |})
    | TtsStream chunks broken =>
        (Returned (),
         {| files := <[audio_path (scene_number scene) := concat chunks]> (files w);
            trace := asked ++ match broken with Some e => [Printed msg e] | None => [] end |})
    end).
  { unfold after, generate_audio. cbv zeta.
    unfold mbind at 1, action_bind at 1, path_exists. rewrite Hnew.
    unfold try_except, mbind at 1, action_bind at 1, emit. simpl.
    destruct (tts remote _ _ _) as [e|chunks broken]; [done|].
    unfold mbind at 1, action_bind at 1, open_wb. simpl.
    unfold mbind at 1, action_bind at 1.
    rewrite (write_chunks_appends _ _ _ []) by (simpl; apply lookup_insert_eq).
    simpl. rewrite insert_insert_eq.
    destruct broken; simpl; [done|]. by rewrite app_nil_r. }
  split; [exact Hrun|].
  intros chunks broken remote' api_key' voice' Hstream.
  apply (run_task_existing remote' (GenerateAudio scene api_key' voice')).
  rewrite Hrun, Hstream. simpl. apply exists_true_lookup. simpl.
  rewrite lookup_insert_eq. eauto.
Qed.

Lemma audio_file_holds_the_received_chunks_witness :
  generate_audio broken_stream_remote (example_scene 5 "image") "el-key" "narrator"
    (world_of_files [])
  = (Returned (),
     {| files := <[audio_path 5 := [Byte.x49; Byte.x44; Byte.x33]]> ∅;
        trace := [Remote (ElevenLabsGenerate "el-key" "Narration of scene 5" "narrator");
                  Printed "Error generating audio for Scene 5"
                    (RequestException "connection reset")] |}).
Proof.
  apply (audio_file_holds_the_received_chunks broken_stream_remote
           (example_scene 5 "image") "el-key" "narrator" (world_of_files [])).
  reflexivity.
Defined.

(** X5. What [generate_image] does for a scene without image file: the
    file is written, with the body of the reply, exactly when the
    service replies with a status outside 400..599; when it does not
    reply, or replies with such a status, no file is made and the
    failure is printed.  One request is issued in each case. *)
Theorem image_written_only_from_good_reply remote scene api_key w :
  exists_ w (image_path (scene_number scene)) = false →
  let asked := trace w ++ [Remote (StabilityImage api_key (visual_prompt scene))] in
  let msg := "Error generating image for Scene " +:+ pretty (scene_number scene) in
  generate_image remote scene api_key w =
    match http remote (StabilityImage api_key (visual_prompt scene)) with
    | NoResponse e =>
        (Returned (), {| files := files w; trace := asked ++ [Printed msg e] |})
    | Got r =>
        if bool_decide (400 ≤ status_code r < 600) then
          (Returned (),
           {| files := files w;
              trace := asked ++ [Printed msg (HTTPError (status_code r))] |})
        else
          (Returned (),
           {| files := <[image_path (scene_number scene) := content r]> (files w);
              trace := asked |})
    end.
Proof.
  intros Hnew asked msg. unfold generate_image. run_action. rewrite Hnew.
  destruct (http remote _) as [e|r]; run_action; [done|].
  destruct (bool_decide _); run_action; [done|].
  by rewrite write_new_file.
Qed.

Lemma image_written_only_from_good_reply_witness :
  generate_image image_remote
    {| scene_number := 8; narration_text := "n"; visual_prompt := "too expensive";
       visual_type := JStr "image" |} "st-key" (world_of_files [])
  = (Returned (),
     {| files := ∅;
        trace := [Remote (StabilityImage "st-key" "too expensive");
                  Printed "Error generating image for Scene 8" (HTTPError 402)] |}).
Proof.
  apply (image_written_only_from_good_reply image_remote
           {| scene_number := 8; narration_text := "n"; visual_prompt := "too expensive";
              visual_type := JStr "image" |} "st-key" (world_of_files [])).
  reflexivity.
Defined.

(** ** What the stock-video fetcher writes *)

(** X6. Whatever [download_stock_video] writes to a scene's video path
    is the body of a download that was answered with a status outside
    400..599, and it is written after exactly two requests, the search
    and that download.  A search that fails, a result without a usable
    link, or a failed download leave no file. *)
Theorem stock_video_written_only_from_download remote scene api_key w data :
  exists_ w (video_path (scene_number scene)) = false →
  files (download_stock_video remote scene api_key w).2 !! video_path (scene_number scene)
    = Some data →
  ∃ url r,
    http remote (Download url) = Got r
    ∧ ¬ (400 ≤ status_code r < 600)
    ∧ content r = data
    ∧ download_stock_video remote scene api_key w =
        (Returned (),
         {| files := <[video_path (scene_number scene) := data]> (files w);
            trace := trace w ++ [Remote (PexelsSearch api_key (visual_prompt scene));
                                 Remote (Download url)] |}).
Proof.
  intros Hnew. pose proof (proj1 (exists_false_lookup _ _) Hnew) as Hnone.
  unfold download_stock_video. run_action. rewrite Hnew.
  repeat
    (match goal with
     | |- context [http remote ?q] => destruct (http remote q) eqn:?
     | |- context [bool_decide ?P] => destruct (bool_decide P) eqn:?
     | |- context [json_body ?q] => destruct (json_body q) eqn:?
     | |- context [py_getitem ?v ?k] => destruct (py_getitem v k) eqn:?
     | |- context [py_truthy ?v] => destruct (py_truthy v) eqn:?
     | |- context [py_first ?v] => destruct (py_first v) eqn:?
     | |- context [match ?j with JNull => _ | _ => _ end] => destruct j
     end;
     run_action; try (intros Hdata; congruence)).
  rewrite !lookup_insert_eq. simpl. intros [= <-].
  eexists _, _. split; [eassumption|].
  split; [match goal with H : bool_decide _ = false |- _ =>
            by apply bool_decide_eq_false in H end|].
  split; [done|]. by rewrite insert_insert_eq, <- app_assoc.
Qed.

Lemma stock_video_written_only_from_download_witness :
  ∃ url r,
    http stock_footage_remote (Download url) = Got r
    ∧ ¬ (400 ≤ status_code r < 600)
    ∧ content r = sd_bytes
    ∧ download_stock_video stock_footage_remote (example_scene 6 "stock_footage") "px-key"
        (world_of_files []) =
        (Returned (),
         {| files := <[video_path 6 := sd_bytes]> ∅;
            trace := [Remote (PexelsSearch "px-key" "a quiet harbour at dawn");
                      Remote (Download url)] |}).
Proof.
  apply (stock_video_written_only_from_download stock_footage_remote
           (example_scene 6 "stock_footage") "px-key" (world_of_files []) sd_bytes);
    reflexivity.
Defined.

(** ** The generated-video fetcher from submission to result *)

Lemma iter_polled n api_key generation_id w :
  Nat.iter n (polled api_key generation_id) (polled api_key generation_id w)
  = polled api_key generation_id (Nat.iter n (polled api_key generation_id) w).
Proof. induction n as [|n IH]; simpl; [done | by rewrite IH]. Qed.

Lemma files_iter_polled n api_key generation_id w :
  files (Nat.iter n (polled api_key generation_id) w) = files w.
Proof. induction n as [|n IH]; simpl; [done | exact IH]. Qed.

Lemma poll_loop_after_processing output_path api_key generation_id pre rest w :
  Forall still_processing pre →
  poll_loop output_path api_key generation_id (pre ++ rest) w =
    poll_loop output_path api_key generation_id rest
      (Nat.iter (length pre) (polled api_key generation_id) w).
Proof.
  intros Hpre. revert w. induction Hpre as [|reply pre (r & -> & Hs) _ IH]; intros w.
  - done.
  - change ((Got r :: pre) ++ rest) with (Got r :: (pre ++ rest)).
    rewrite poll_loop_processing by done. rewrite IH. simpl. by rewrite iter_polled.
Qed.

Lemma generate_video_submitted remote scene api_key w :
  exists_ w (video_path (scene_number scene)) = false →
  generate_video remote scene api_key w =
    match job_id_of (http remote (StabilityVideo api_key (visual_prompt scene))) with
    | inl e =>
        print ("Error generating video for Scene " +:+ pretty (scene_number scene)) e
          (submitted scene api_key w)
    | inr generation_id =>
        try_except
          (poll_loop (video_path (scene_number scene)) api_key generation_id
             (video_result remote api_key generation_id))
          (print ("Error generating video for Scene " +:+ pretty (scene_number scene)))
          (submitted scene api_key w)
    end.
Proof.
  intros Hnew. unfold generate_video, job_id_of, submitted. run_action. rewrite Hnew.
  destruct (http remote _) as [e|r]; run_action; [done|].
  destruct (bool_decide _); run_action; [done|].
  destruct (json_body r) as [body|]; run_action; [|done].
  by destruct (py_getitem body "id").
Qed.

Lemma poll_loop_no_response output_path api_key generation_id e later w :
  poll_loop output_path api_key generation_id (NoResponse e :: later) w =
    (Raised e, polled api_key generation_id w).
Proof. simpl. run_action. by rewrite <- app_assoc. Qed.

Lemma poll_loop_failure output_path api_key generation_id reply e later w :
  poll_failure reply = Some e →
  poll_loop output_path api_key generation_id (reply :: later) w =
    (Raised e, polled api_key generation_id w).
Proof.
  intros Hfail. destruct reply as [e'|r]; simpl in Hfail.
  - injection Hfail as ->. apply poll_loop_no_response.
  - destruct (bool_decide (400 ≤ status_code r < 600)) eqn:Herr; [|done].
    injection Hfail as <-. apply poll_loop_error. by apply bool_decide_eq_true in Herr.
Qed.

(** X7. A generated video is written when the job gets ready: after a
    submission that yields a job id, any number of "processing" replies
    and then a reply with status 200, the fetcher has slept 20 seconds
    before each of its polls, has written the body of that reply to the
    scene's video path, has printed nothing, and has not asked for any
    later reply. *)
Theorem generated_video_written_when_ready
    remote scene api_key w generation_id pre ready later :
  exists_ w (video_path (scene_number scene)) = false →
  job_id_of (http remote (StabilityVideo api_key (visual_prompt scene))) = inr generation_id →
  video_result remote api_key generation_id = pre ++ Got ready :: later →
  Forall still_processing pre →
  status_code ready = 200 →
  generate_video remote scene api_key w =
    (Returned (),
     {| files := <[video_path (scene_number scene) := content ready]> (files w);
        trace := trace (Nat.iter (S (length pre)) (polled api_key generation_id)
                          (submitted scene api_key w)) |}).
Proof.
  intros Hnew Hid Hreplies Hpre Hready.
  rewrite generate_video_submitted, Hid by done. unfold try_except.
  rewrite Hreplies, poll_loop_after_processing, poll_loop_ready by done.
  by rewrite files_iter_polled.
Qed.

Lemma generated_video_written_when_ready_witness :
  generate_video
    (job_remote [processing_reply; processing_reply;
                 Got {| status_code := 200; content := video_bytes; json_body := None |};
                 NoResponse (RequestException "never asked")])
    (example_scene 7 "video") "st-key" (world_of_files [])
  = (Returned (),
     {| files := <[video_path 7 := video_bytes]> ∅;
        trace := [Remote (StabilityVideo "st-key" "a quiet harbour at dawn");
                  Slept 20; Remote (StabilityVideoResult "st-key" (JStr "job-1"));
                  Slept 20; Remote (StabilityVideoResult "st-key" (JStr "job-1"));
                  Slept 20; Remote (StabilityVideoResult "st-key" (JStr "job-1"))] |}).
Proof.
  apply (generated_video_written_when_ready _ (example_scene 7 "video") "st-key"
           (world_of_files []) (JStr "job-1") [processing_reply; processing_reply]
           {| status_code := 200; content := video_bytes; json_body := None |}
           [NoResponse (RequestException "never asked")]);
    try reflexivity.
  repeat constructor; eexists; split; reflexivity.
Defined.

(** X8. A poll that raises ends the fetch: after a submission that
    yields a job id and any number of "processing" replies, a poll that
    gets no reply, or a reply with a status in 400..599, makes the
    fetcher print the failure and return; no file is written and no
    further poll is made. *)
Theorem generated_video_poll_failure_ends_fetch
    remote scene api_key w generation_id pre reply later e :
  exists_ w (video_path (scene_number scene)) = false →
  job_id_of (http remote (StabilityVideo api_key (visual_prompt scene))) = inr generation_id →
  video_result remote api_key generation_id = pre ++ reply :: later →
  Forall still_processing pre →
  poll_failure reply = Some e →
  generate_video remote scene api_key w =
    (Returned (),
     {| files := files w;
        trace := trace (Nat.iter (S (length pre)) (polled api_key generation_id)
                          (submitted scene api_key w))
                 ++ [Printed ("Error generating video for Scene "
                              +:+ pretty (scene_number scene)) e] |}).
Proof.
  intros Hnew Hid Hreplies Hpre Hfail.
  rewrite generate_video_submitted, Hid by done. unfold try_except.
  rewrite Hreplies, poll_loop_after_processing by done.
  rewrite (poll_loop_failure _ _ _ _ e) by done.
  unfold print, emit. simpl. by rewrite files_iter_polled.
Qed.

Lemma generated_video_poll_failure_ends_fetch_witness :
  generate_video
    (job_remote [processing_reply;
                 Got {| status_code := 500; content := []; json_body := None |};
                 processing_reply])
    (example_scene 7 "video") "st-key" (world_of_files [])
  = (Returned (),
     {| files := ∅;
        trace := [Remote (StabilityVideo "st-key" "a quiet harbour at dawn");
                  Slept 20; Remote (StabilityVideoResult "st-key" (JStr "job-1"));
                  Slept 20; Remote (StabilityVideoResult "st-key" (JStr "job-1"));
                  Printed "Error generating video for Scene 7" (HTTPError 500)] |}).
Proof.
  apply (generated_video_poll_failure_ends_fetch _ (example_scene 7 "video") "st-key"
           (world_of_files []) (JStr "job-1") [processing_reply]
           (Got {| status_code := 500; content := []; json_body := None |})
           [processing_reply] (HTTPError 500));
    try reflexivity.
  repeat constructor; eexists; split; reflexivity.
Defined.

(** X9. The polling has no bound: after a submission that yields a job
    id, as long as every reply says "processing" the fetcher has not
    returned; it has slept and polled once per reply, written no file
    and printed nothing. *)
Theorem generated_video_polls_without_bound remote scene api_key w generation_id :
  exists_ w (video_path (scene_number scene)) = false →
  job_id_of (http remote (StabilityVideo api_key (visual_prompt scene))) = inr generation_id →
  Forall still_processing (video_result remote api_key generation_id) →
  let after := Nat.iter (length (video_result remote api_key generation_id))
                 (polled api_key generation_id) (submitted scene api_key w) in
  generate_video remote scene api_key w = (StillPolling, after)
  ∧ files after = files w.
Proof.
  intros Hnew Hid Hall after.
  rewrite generate_video_submitted, Hid by done. unfold try_except.
  rewrite poll_loop_unbounded by exact Hall.
  split; [done|]. unfold after. by rewrite files_iter_polled.
Qed.

Lemma generated_video_polls_without_bound_witness :
  generate_video (job_remote (replicate 90 processing_reply))
    (example_scene 7 "video") "st-key" (world_of_files [])
  = (StillPolling,
     Nat.iter 90 (polled "st-key" (JStr "job-1"))
       (submitted (example_scene 7 "video") "st-key" (world_of_files []))).
Proof.
  apply (generated_video_polls_without_bound (job_remote (replicate 90 processing_reply))
           (example_scene 7 "video") "st-key" (world_of_files []) (JStr "job-1"));
    try reflexivity.
  apply Forall_replicate. eexists; split; reflexivity.
Defined.

(** X10. A submission that fails ends the fetch before any poll: when
    the service does not reply, replies with a status in 400..599, with
    a body that is not JSON, or with JSON that has no "id", the fetcher
    prints the failure and returns, having neither slept nor polled nor
    written a file. *)
Theorem generated_video_submission_failure remote scene api_key w e :
  exists_ w (video_path (scene_number scene)) = false →
  job_id_of (http remote (StabilityVideo api_key (visual_prompt scene))) = inl e →
  generate_video remote scene api_key w =
    (Returned (),
     {| files := files w;
        trace := trace w ++ [Remote (StabilityVideo api_key (visual_prompt scene));
                             Printed ("Error generating video for Scene "
                                      +:+ pretty (scene_number scene)) e] |}).
Proof.
  intros Hnew Hid. rewrite generate_video_submitted, Hid by done.
  unfold print, emit, submitted. simpl. by rewrite <- app_assoc.
Qed.

Lemma generated_video_submission_failure_witness :
  generate_video image_remote (example_scene 7 "video") "st-key" (world_of_files [])
  = (Returned (),
     {| files := ∅;
        trace := [Remote (StabilityVideo "st-key" "a quiet harbour at dawn");
                  Printed "Error generating video for Scene 7"
                    (RequestException "offline")] |}).
Proof.
  apply (generated_video_submission_failure image_remote (example_scene 7 "video")
           "st-key" (world_of_files [])); reflexivity.
Defined.

(** ** More on the assembler *)









(** ** Asset paths *)

Lemma string_length_app (s1 s2 : string) :
  String.length (s1 +:+ s2) = (String.length s1 + String.length s2)%nat.
Proof.
  induction s1 as [|c s1 IH]; [done|].
  change (S (String.length (s1 +:+ s2)) = S (String.length s1 + String.length s2)).
  by rewrite IH.
Qed.

Lemma string_app_inj_len (s1 s2 t1 t2 : string) :
  String.length t1 = String.length t2 → s1 +:+ t1 = s2 +:+ t2 → s1 = s2 ∧ t1 = t2.
Proof.
  intros Hlen. revert s2. induction s1 as [|c s1 IH]; intros [|c' s2] Heq.
  - done.
  - apply (f_equal String.length) in Heq.
    rewrite !string_length_app in Heq. simpl in Heq. lia.
  - apply (f_equal String.length) in Heq.
    rewrite !string_length_app in Heq. simpl in Heq. lia.
  - change (String c (s1 +:+ t1) = String c' (s2 +:+ t2)) in Heq.
    injection Heq as -> Heq. destruct (IH _ Heq) as [-> ->]. done.
Qed.

Lemma scene_path_inj (dir ext : string) (n m : Z) :
  dir +:+ pretty n +:+ ext = dir +:+ pretty m +:+ ext → n = m.
Proof.
  intros Heq. apply (inj (String.append dir)) in Heq.
  apply string_app_inj_len in Heq as [Heq _]; [|done].
  by apply (inj pretty) in Heq.
Qed.

(** X15. Asset paths do not collide: two scenes with different numbers
    have different audio, image and video paths, and no audio path is an
    image or video path, nor any image path a video path, of whatever
    scene. *)
Theorem asset_paths_do_not_collide n m :
  (n ≠ m →
     audio_path n ≠ audio_path m ∧ image_path n ≠ image_path m
     ∧ video_path n ≠ video_path m)
  ∧ audio_path n ≠ image_path m
  ∧ audio_path n ≠ video_path m
  ∧ image_path n ≠ video_path m.
Proof.
  split; [|split; [|split]].
  - intros Hne. unfold audio_path, image_path, video_path.
    repeat split; intros Heq; apply Hne; by apply scene_path_inj in Heq.
  - unfold audio_path, image_path. simpl. discriminate.
  - unfold audio_path, video_path. simpl. discriminate.
  - unfold image_path, video_path. intros Heq.
    apply (inj (String.append "visual_assets/scene_")) in Heq.
    apply string_app_inj_len in Heq as [_ Heq]; [discriminate | done].
Qed.

Lemma asset_paths_do_not_collide_witness :
  audio_path 1 ≠ audio_path 11 ∧ image_path 1 ≠ image_path 11
  ∧ video_path 1 ≠ video_path 11.
Proof. apply (asset_paths_do_not_collide 1 11). lia. Defined.

(** ** Fetching and assembling together *)

Lemma task_target_other_scene t n path :
  scene_number (task_scene t) ≠ n →
  path = audio_path n ∨ path = image_path n ∨ path = video_path n →
  task_target t ≠ path.
Proof.
  intros Hne Hpath Heq. subst path.
  destruct t as [s ? ?|s ?|s ?|s ?]; simpl in *;
    destruct Hpath as [Hp|[Hp|Hp]];
    first [ by apply scene_path_inj in Hp
          | revert Hp; unfold audio_path, image_path, video_path; simpl; discriminate
          | unfold image_path, video_path in Hp;
            apply (inj (String.append "visual_assets/scene_")) in Hp;
            apply string_app_inj_len in Hp as [_ Hp]; [discriminate | done] ].
Qed.

Lemma exists_same_lookup w w' path :
  files w' !! path = files w !! path → exists_ w' path = exists_ w path.
Proof. unfold exists_. by intros ->. Qed.

(** X16. Fetching for some scenes changes nothing for the others: after
    a run of tasks none of which is for a scene numbered like [scene],
    the audio, image and video paths of [scene] hold what they held
    before, so the scene is as usable to the assembler as it was. *)
Theorem fetching_leaves_other_scenes_alone remote order w scene :
  (∀ t, t ∈ order → scene_number (task_scene t) ≠ scene_number scene) →
  let w' := (run_tasks remote order w).2 in
  files w' !! audio_path (scene_number scene) = files w !! audio_path (scene_number scene)
  ∧ files w' !! image_path (scene_number scene) = files w !! image_path (scene_number scene)
  ∧ files w' !! video_path (scene_number scene) = files w !! video_path (scene_number scene)
  ∧ eligible w' scene = eligible w scene.
Proof.
  intros Hother w'.
  assert (Hsame : ∀ path,
            path = audio_path (scene_number scene) ∨ path = image_path (scene_number scene)
            ∨ path = video_path (scene_number scene) →
            files w' !! path = files w !! path).
  { intros path Hpath. unfold w'. clear w'. revert w.
    induction order as [|t rest IH]; intros w; [done|].
    simpl. pose proof (run_task_same_files_except remote t w path) as Hstep.
    destruct (run_task remote t w) as [outcome w1]. simpl in Hstep.
    rewrite <- Hstep.
    - assert (files (run_tasks remote rest w1).2 !! path = files w1 !! path) as Hrest.
      { apply IH. intros t' Ht'. apply Hother. by apply elem_of_cons; right. }
      by destruct (run_tasks remote rest w1).
    - intros Heq. symmetry in Heq. revert Heq.
      apply (task_target_other_scene t (scene_number scene) path); [|done].
      apply Hother. by apply elem_of_cons; left. }
  split; [apply Hsame; auto|]. split; [apply Hsame; auto|]. split; [apply Hsame; auto|].
  unfold eligible. by rewrite !(exists_same_lookup w w') by (apply Hsame; auto).
Qed.

Lemma fetching_leaves_other_scenes_alone_witness :
  eligible (run_tasks image_remote (future_tasks example_keys [example_scene 2 "image"])
              partial_world).2 (example_scene 3 "image") = true.
Proof.
  destruct (fetching_leaves_other_scenes_alone image_remote
              (future_tasks example_keys [example_scene 2 "image"]) partial_world
              (example_scene 3 "image")) as (_ & _ & _ & H).
  - intros t Ht. apply elem_of_cons in Ht as [->|Ht]; [simpl; lia|].
    apply list_elem_of_singleton in Ht as ->. simpl. lia.
  - rewrite H. reflexivity.
Defined.

(** X17. The dispatch loop and the assembler agree on the files: once
    the targets of the two tasks submitted for a scene exist, the scene
    has what the assembler asks for. *)
Theorem fetched_scene_is_eligible keys scene w :
  (∀ t, t ∈ submit_scene keys scene → exists_ w (task_target t) = true) →
  eligible w scene = true.
Proof.
  intros Hall. unfold eligible.
  assert (∃ visual, submit_scene keys scene
            = [GenerateAudio scene (elevenlabs_key keys) (voice_id keys); visual]
          ∧ (task_target visual = image_path (scene_number scene)
             ∨ task_target visual = video_path (scene_number scene)))
    as (visual & Htasks & Htarget).
  { unfold submit_scene.
    destruct (py_eq_str _ "image"); [|destruct (py_eq_str _ "stock_footage")];
      eexists; (split; [reflexivity|]); simpl; auto. }
  rewrite Htasks in Hall.
  assert (exists_ w (audio_path (scene_number scene)) = true) as Haudio
    by (apply (Hall (GenerateAudio scene (elevenlabs_key keys) (voice_id keys)));
        apply elem_of_cons; by left).
  assert (exists_ w (task_target visual) = true) as Hvisual
    by (apply Hall; apply elem_of_cons; right; apply elem_of_cons; by left).
  rewrite Haudio. simpl. apply orb_true_iff.
  destruct Htarget as [<-|<-]; auto.
Qed.

Lemma fetched_scene_is_eligible_witness :
  eligible complete_world (example_scene 2 "image") = true.
Proof.
  apply (fetched_scene_is_eligible example_keys).
  intros t Ht. apply elem_of_cons in Ht as [->|Ht]; [reflexivity|].
  apply list_elem_of_singleton in Ht as ->. reflexivity.
Defined.







(** ** Breakdown and handler *)

(** X19. The breakdown client raises only in its set-up, which comes
    before the [try]: what [genai.configure] raises escapes; once the
    client is configured, a configuration without the model name makes
    the client raise [KeyError] before any request is issued; and what
    the construction of the model object raises escapes too.  Once the
    model object is built, one request is issued: when the model answers
    with text that parses, that value is returned and nothing is
    printed; when the call raises or the text does not parse, the
    failure is printed and [None] is returned, upon which the handler
    reports failure and leaves the session's shot list as it was,
    without building a frame. *)
Theorem failed_breakdown_leaves_shot_list
    {DataFrame : Type} (pd_DataFrame : json → Exn + DataFrame) (shot_list_df : DataFrame)
    genai remote config script_content api_key w :
  let outcome := generate_scene_breakdown genai remote config script_content api_key w in
  (∀ e, configure genai api_key = Some e → outcome = (Raised e, w))
  ∧ (configure genai api_key = None →
     match config_get config "SETTINGS" "LLM_MODEL" with
     | inl e => outcome = (Raised e, w)
     | inr model_name =>
         let asked :=
           trace w ++ [Remote (GeminiGenerate api_key model_name script_content)] in
         let reply := llm remote api_key model_name script_content in
         (∀ e, GenerativeModel genai model_name = Some e → outcome = (Raised e, w))
         ∧ (GenerativeModel genai model_name = None →
            (∀ v, reply = LlmText (Some v) →
               outcome = (Returned v, {| files := files w; trace := asked |}))
            ∧ (∀ e, reply = LlmFails e ∨ (reply = LlmText None ∧ e = JSONDecodeError) →
                 outcome =
                   (Returned JNull,
                    {| files := files w;
                       trace := asked
                                ++ [Printed "Error breaking down script with Gemini" e] |})))
     end)
  ∧ shot_list_handler pd_DataFrame shot_list_df JNull = inr (shot_list_df, false).
Proof.
  cbv zeta. unfold generate_scene_breakdown. split; [|split; [|done]].
  - intros e Hconfigure. rewrite Hconfigure. by run_action.
  - intros Hconfigure. rewrite Hconfigure.
    destruct (config_get config "SETTINGS" "LLM_MODEL") as [e|model_name]; [done|].
    split.
    + intros e Hmodel. run_action. rewrite Hmodel. by run_action.
    + intros Hmodel. run_action. rewrite Hmodel. run_action. split.
      * intros v Hreply. by rewrite Hreply.
      * intros e [Hreply|[Hreply ->]]; by rewrite Hreply.
Qed.

Lemma failed_breakdown_leaves_shot_list_witness :
  generate_scene_breakdown willing_genai offline ∅ "Once upon a time." "g-key"
    (world_of_files [])
  = (Raised (KeyError "SETTINGS"), world_of_files [])
  ∧ generate_scene_breakdown willing_genai offline example_config
      "Once upon a time." "g-key" (world_of_files [])
    = (Returned JNull,
       {| files := ∅;
          trace := [Remote (GeminiGenerate "g-key" "gemini-1.5-flash" "Once upon a time.");
                    Printed "Error breaking down script with Gemini"
                      (RequestException "offline")] |})
  ∧ shot_list_handler records_frame [example_record 1] JNull
    = inr ([example_record 1], false).
Proof.
  split; [|split].
  - destruct (failed_breakdown_leaves_shot_list records_frame [example_record 1]
                willing_genai offline ∅ "Once upon a time." "g-key"
                (world_of_files [])) as (_ & H & _).
    specialize (H eq_refl).
    assert (config_get ∅ "SETTINGS" "LLM_MODEL" = inl (KeyError "SETTINGS")) as E
      by reflexivity.
    rewrite E in H. exact H.
  - destruct (failed_breakdown_leaves_shot_list records_frame [example_record 1]
                willing_genai offline example_config "Once upon a time." "g-key"
                (world_of_files [])) as (_ & H & _).
    specialize (H eq_refl).
    assert (config_get example_config "SETTINGS" "LLM_MODEL" = inr "gemini-1.5-flash")
      as E by reflexivity.
    rewrite E in H. destruct H as [_ H]. destruct (H eq_refl) as [_ Hfail].
    apply (Hfail (RequestException "offline")). by left.
  - apply (failed_breakdown_leaves_shot_list records_frame [example_record 1]
             willing_genai offline ∅ "Once upon a time." "g-key" (world_of_files [])).
Defined.

(** X20. The handler stores a new shot list only for a non-empty list or
    for an object whose "scenes" entry is truthy, and what it stores is
    the frame built from that list or entry; whenever it reports
    failure, the session's shot list is the one it had. *)
Theorem handler_stores_only_scene_lists
    {DataFrame : Type} (pd_DataFrame : json → Exn + DataFrame) (shot_list_df : DataFrame)
    shot_list_data df ok :
  shot_list_handler pd_DataFrame shot_list_df shot_list_data = inr (df, ok) →
  if ok then
    ((∃ l, shot_list_data = JList l ∧ l ≠ [] ∧ pd_DataFrame (JList l) = inr df)
     ∨ (∃ d scenes, shot_list_data = JDict d ∧ d !! "scenes" = Some scenes
                    ∧ py_truthy scenes = true ∧ pd_DataFrame scenes = inr df))
  else df = shot_list_df.
Proof.
  unfold shot_list_handler.
  destruct (py_truthy (scenes_list shot_list_data)) eqn:Htruthy.
  - destruct (pd_DataFrame (scenes_list shot_list_data)) as [e|df'] eqn:Hframe; [done|].
    intros [= <- <-].
    destruct shot_list_data as [| | | | |l|d]; simpl in *; try done.
    + left. exists l. by destruct l.
    + right. destruct (d !! "scenes") as [scenes|] eqn:Hscenes; [|done].
      by exists d, scenes.
  - by intros [= <- <-].
Qed.

Lemma handler_stores_only_scene_lists_witness :
  (∃ l, JList [example_record 1] = JList l ∧ l ≠ []
        ∧ records_frame (JList l) = inr [example_record 1])
  ∨ (∃ d scenes, JList [example_record 1] = JDict d ∧ d !! "scenes" = Some scenes
                 ∧ py_truthy scenes = true ∧ records_frame scenes = inr [example_record 1]).
Proof.
  apply (handler_stores_only_scene_lists records_frame [] (JList [example_record 1])
           [example_record 1] true).
  reflexivity.
Defined.
